(** * bulk-fotoverwerker: batch orchestrator, worker pool and watermark overlay

    A shallow embedding of [server.js] (batch orchestrator, worker pool, RAW
    helper) and [worker.js] (image pipeline, overlay compositor), with the
    properties of the batch processing engine stated and proved over it.

    Conventions of the embedding:
    - JavaScript numbers are IEEE-754 binary64 values.  Products with a
      fractional factor ([shortestSide * 0.028], [eventFont * 0.35], ...) are
      computed with the binary64 operations of [SpecFloat]; integral
      quantities (pixel sizes, counters, indices) are kept in [Z], where
      binary64 arithmetic is exact below 2^53.
    - JavaScript strings are modelled by [string]; a character stands for
      a code unit below 256.
    - Calls into sharp, the file system, the archiver and the worker threads
      are parameters of the model (Section variables or labels of the step
      relation): the code only sequences them and reacts to their outcome. *)

From Stdlib Require Import ZArith Lia Bool Ascii String.
From Stdlib Require Import Floats.SpecFloat.
From stdpp Require Import base list strings pretty gmap.

Open Scope Z_scope.

(** ** JavaScript numbers *)
Module JSNum.

Definition prec : Z := 53.
Definition emax : Z := 1024.

(** A JavaScript number. *)
Definition num : Type := spec_float.

Definition ofZ (z : Z) : num := binary_normalize prec emax z 0 false.

(** The decimal literal [n/d] (as in [0.028] = [lit 28 1000]): the binary64
    value nearest to the quotient. *)
Definition lit (n d : Z) : num := SFdiv prec emax (ofZ n) (ofZ d).

Definition mul : num -> num -> num := SFmul prec emax.
Definition add : num -> num -> num := SFadd prec emax.

Definition isFinite (x : num) : bool :=
  match x with
  | S754_zero _ | S754_finite _ _ _ => true
  | _ => false
  end.

(** [x || d] on numbers: [0], [-0] and [NaN] are falsy. *)
Definition truthy (x : num) : bool :=
  match x with
  | S754_zero _ | S754_nan => false
  | _ => true
  end.

Definition orElse (x d : num) : num := if truthy x then x else d.

(** [Math.max] and [Math.min] of two numbers: [NaN] if either is [NaN],
    and [+0] counts as larger than [-0]. *)
Definition Math_max (x y : num) : num :=
  match SFcompare x y with
  | None => S754_nan
  | Some Lt => y
  | Some Gt => x
  | Some Eq => match x with S754_zero true => y | _ => x end
  end.

Definition Math_min (x y : num) : num :=
  match SFcompare x y with
  | None => S754_nan
  | Some Lt => x
  | Some Gt => y
  | Some Eq => match x with S754_zero false => y | _ => x end
  end.

(** [Math.round] of a finite number, as an integer: the nearest integer,
    ties towards +infinity, i.e. floor (x + 1/2) computed exactly from the
    mantissa and exponent.  [NaN] and the infinities have no integer value
    and are mapped to 0; the statements below are about finite products. *)
Definition Math_round (x : num) : Z :=
  match x with
  | S754_finite s m e =>
      let sm := if s then Z.neg m else Z.pos m in
      match e with
      | Z.neg k => (2 * sm + 2 ^ Z.pos k) / 2 ^ (Z.pos k + 1)
      | _ => sm * 2 ^ e
      end
  | _ => 0
  end.

(** [x || d] on an integral metadata field that may be absent. *)
Definition orZ (x : option Z) (d : Z) : Z :=
  match x with
  | Some v => if v =? 0 then d else v
  | None => d
  end.

End JSNum.

(** ** JavaScript strings *)
Module JSString.

Definition nonEmpty (s : string) : bool :=
  match s with EmptyString => false | _ => true end.

(** White space of [\s] and of [String.prototype.trim] among the 8-bit code
    units: TAB, LF, VT, FF, CR, SPACE and NBSP. *)
Definition isSpace (c : ascii) : bool :=
  let n := nat_of_ascii c in
  ((9 <=? n) && (n <=? 13))%nat || (n =? 32)%nat || (n =? 160)%nat.

Fixpoint trimStart (s : string) : string :=
  match s with
  | String c s' => if isSpace c then trimStart s' else s
  | EmptyString => EmptyString
  end.

Fixpoint allSpace (s : string) : bool :=
  match s with
  | String c s' => isSpace c && allSpace s'
  | EmptyString => true
  end.

Fixpoint trimEnd (s : string) : string :=
  match s with
  | String c s' => if allSpace s then EmptyString else String c (trimEnd s')
  | EmptyString => EmptyString
  end.

Definition trim (s : string) : string := trimEnd (trimStart s).

(** [s.split(/\s+/)]: the pieces between maximal runs of white space,
    leading and trailing empty pieces included.  [cur] is the piece being
    read, [gap] tells whether the previous character was white space. *)
Fixpoint splitSpaces (s cur : string) (gap : bool) : list string :=
  match s with
  | EmptyString => [cur]
  | String c s' =>
      if isSpace c
      then (if gap then splitSpaces s' EmptyString true
            else cur :: splitSpaces s' EmptyString true)
      else splitSpaces s' (cur +:+ String c EmptyString) false
  end.

(** [s.split(/\s+/).filter(Boolean)] *)
Definition words (s : string) : list string :=
  List.filter nonEmpty (splitSpaces s EmptyString false).

(** The words of a line joined by single spaces, the way the wrap loop
    builds [tryLine]. *)
Fixpoint joinSpace (ws : list string) : string :=
  match ws with
  | [] => EmptyString
  | [w] => w
  | w :: rest => w +:+ " " +:+ joinSpace rest
  end.

(** [toLowerCase] on 8-bit code units: A-Z, and the upper-case letters of
    Latin-1. *)
Definition lowerChar (c : ascii) : ascii :=
  let n := nat_of_ascii c in
  if ((65 <=? n) && (n <=? 90))%nat
     || ((192 <=? n) && (n <=? 222) && negb (n =? 215))%nat
  then ascii_of_nat (n + 32)
  else c.

Fixpoint toLowerCase (s : string) : string :=
  match s with
  | String c s' => String (lowerChar c) (toLowerCase s')
  | EmptyString => EmptyString
  end.

Definition isDot (c : ascii) : bool := Ascii.eqb c ".".
Definition isSlash (c : ascii) : bool := Ascii.eqb c "/".

(** [s = pre ++ "." ++ tail] with no dot in [tail]: the split at the last
    dot, [None] when [s] has no dot. *)
Fixpoint splitLastDot (s : string) : option (string * string) :=
  match s with
  | EmptyString => None
  | String c s' =>
      match splitLastDot s' with
      | Some (pre, tail) => Some (String c pre, tail)
      | None => if isDot c then Some (EmptyString, s') else None
      end
  end.

(** The split at the last slash: directory part and last component. *)
Fixpoint splitLastSlash (s : string) : option (string * string) :=
  match s with
  | EmptyString => None
  | String c s' =>
      match splitLastSlash s' with
      | Some (pre, tail) => Some (String c pre, tail)
      | None => if isSlash c then Some (EmptyString, s') else None
      end
  end.

(** The last component of a POSIX path without trailing slash. *)
Definition lastComponent (p : string) : string :=
  match splitLastSlash p with
  | Some (_, name) => name
  | None => p
  end.

(** [path.dirname] of a POSIX path without trailing slash. *)
Definition dirname (p : string) : string :=
  match splitLastSlash p with
  | Some (EmptyString, _) => "/"
  | Some (dir, _) => dir
  | None => "."
  end.

(** [path.extname]: from the last dot of the last component to its end;
    empty when there is no dot, when the dot is the first character of the
    component, and for the component [".."]. *)
Definition extname (p : string) : string :=
  let comp := lastComponent p in
  match splitLastDot comp with
  | None => EmptyString
  | Some (pre, tail) =>
      if negb (nonEmpty pre) || String.eqb comp ".." then EmptyString
      else "." +:+ tail
  end.

(** [s = pre ++ suffix]? *)
Fixpoint stripSuffix (suffix s : string) : option string :=
  if String.eqb s suffix then Some EmptyString
  else match s with
       | EmptyString => None
       | String c s' =>
           match stripSuffix suffix s' with
           | Some pre => Some (String c pre)
           | None => None
           end
       end.

(** [path.basename(p, ext)]: the last component, without [ext] when it
    ends with [ext] and is not [ext] itself. *)
Definition basename (p ext : string) : string :=
  let comp := lastComponent p in
  match stripSuffix ext comp with
  | Some pre => if nonEmpty pre && nonEmpty ext then pre else comp
  | None => comp
  end.

(** [path.join(dir, name)] for a directory in normal form and a plain file
    name, as [readdir] returns them: no [.], [..] or slash to normalise. *)
Definition pathJoin (dir name : string) : string := dir +:+ "/" +:+ name.

(** [s.replace(/\.(dng|cr2|nef)$/i, '.jpg')] *)
Definition replaceRawExt (s : string) : string :=
  match splitLastDot s with
  | Some (pre, tail) =>
      let t := toLowerCase tail in
      if String.eqb t "dng" || String.eqb t "cr2" || String.eqb t "nef"
      then pre +:+ ".jpg"
      else s
  | None => s
  end.

(** [s.replace(/\.[^.]+$/, r)]: the last dot and the non-empty rest after
    it are replaced. *)
Definition replaceLastExt (s r : string) : string :=
  match splitLastDot s with
  | Some (pre, tail) => if nonEmpty tail then pre +:+ r else s
  | None => s
  end.

(** A file name without directory part. *)
Fixpoint plainName (s : string) : bool :=
  match s with
  | String c s' => negb (isSlash c) && plainName s'
  | EmptyString => true
  end.

(** [xs.includes(x)] on strings. *)
Definition includes (xs : list string) (x : string) : bool :=
  existsb (String.eqb x) xs.

(** [s.replace(/c/g, r)] for a pattern of one character [c]. *)
Fixpoint replaceAll (c : ascii) (r s : string) : string :=
  match s with
  | String x s' =>
      if Ascii.eqb x c then r +:+ replaceAll c r s' else String x (replaceAll c r s')
  | EmptyString => EmptyString
  end.

End JSString.

(** ** worker.js: image pipeline and watermark overlay *)
Module Worker.
Import JSNum JSString.

(** [clamp(v, min, max)], on integral values and on fractions. *)
Definition clamp (v lo hi : Z) : Z := Z.max lo (Z.min hi v).
Definition clampF (v lo hi : num) : num := Math_max lo (Math_min hi v).

(** *** Layout metrics of [buildWatermarkOverlay] *)

Definition eventFont (baseWidth baseHeight : Z) : Z :=
  let shortestSide := Z.min baseWidth baseHeight in
  clamp (Math_round (mul (ofZ shortestSide) (lit 28 1000))) 18 96.

Definition padding (eventFont : Z) : Z :=
  Z.max 2 (Math_round (mul (ofZ eventFont) (lit 35 100))).

Definition lineGap (eventFont : Z) : Z :=
  Z.max 2 (Math_round (mul (ofZ eventFont) (lit 30 100))).

Definition marginPx (marginEm : num) (eventFont : Z) : Z :=
  Z.max 0 (Math_round (mul (orElse marginEm (ofZ 0)) (ofZ eventFont))).

Definition maxTextBlockWidth (baseWidth : Z) (textMaxWidthPct : num) (marginPx : Z) : Z :=
  Z.max 120
    (Math_round (mul (ofZ baseWidth)
                     (clampF (orElse textMaxWidthPct (lit 9 10)) (lit 2 10) (lit 98 100)))
     - marginPx).

(** The [maxLineWidth] handed to [wrapTextToWidth]. *)
Definition wrapWidth (maxTextBlockWidth padding : Z) : Z :=
  maxTextBlockWidth - 2 * padding.

Definition combinedText (eventText dateText : string) : string :=
  trim (trim eventText +:+ " " +:+ trim dateText).

(** *** Rendered text lines *)

(** The result of [renderTrimmedLine].  The pixel buffer is the trimmed
    rendering of [ltext] at [lfont] px: the model keeps that request in
    place of the pixels. *)
Record TextLine := mkTextLine {
  ltext : string;
  lfont : Z;
  width : Z;
  height : Z
}.

(** What is composited onto the overlay canvas. *)
Inductive Layer :=
| LogoLayer
| TextLayer (line : TextLine).

Record Composite := mkComposite {
  input : Layer;
  left : Z;
  top : Z
}.

(** Four 8-bit samples of the composited overlay, and the samples after
    [linear], which are fractions. *)
Record Pixel := mkPixel { red : Z; green : Z; blue : Z; alpha : Z }.
Record FadedPixel := mkFadedPixel { fred : num; fgreen : num; fblue : num; falpha : num }.

Record WatermarkOverlay := mkOverlay {
  buffer : list FadedPixel;
  ovWidth : Z;
  ovHeight : Z;
  fontSize : Z;
  ovMarginPx : Z
}.

Record Wrapped := mkWrapped {
  lines : list TextLine;
  totalWidth : option Z;
  totalHeight : Z
}.

(** [Math.max(...xs)]: [-Infinity], here [None], on the empty list. *)
Definition maxOf (xs : list Z) : option Z :=
  match xs with
  | [] => None
  | x :: rest => Some (fold_left Z.max rest x)
  end.

Definition sumOf (xs : list Z) : Z := fold_left Z.add xs 0.

(** The output extension and the path the worker writes to. *)
Definition outExtOf (outputPath : string) : string :=
  let outExt := toLowerCase (extname outputPath) in
  if includes [".jpg"; ".jpeg"; ".png"; ".webp"] outExt then outExt else ".jpg".

Definition outPathFinalOf (outputPath : string) : string :=
  replaceLastExt outputPath (outExtOf outputPath).

(** [escapeXml]: five replacements, one after the other.  [quot] is the
    double quote. *)
Definition quot : ascii := ascii_of_nat 34.

Definition escapeXml (text : string) : string :=
  replaceAll "'" "&apos;"
    (replaceAll quot "&quot;"
       (replaceAll ">" "&gt;"
          (replaceAll "<" "&lt;"
             (replaceAll "&" "&amp;" text)))).

Section Pipeline.

(** sharp: width and height in the metadata of the trimmed rendering of
    one line of text at a font size. *)
Variable renderMeta : string -> Z -> option Z * option Z.

(** The file system and sharp on the logo: [existsSync], the metadata of
    the logo ([None]: the call throws), and the metadata of the logo
    resized to a height ([None]: resizing or reading it back throws). *)
Variable existsSync : string -> bool.
Variable logoMetadata : string -> option (option Z * option Z).
Variable logoResized : string -> Z -> option (option Z * option Z).

(** sharp: the pixels of a transparent canvas of the given size with the
    layers composited onto it. *)
Variable compositeCanvas : Z -> Z -> list Composite -> list Pixel.

Definition renderTrimmedLine (text : string) (fontSize : Z) : TextLine :=
  let meta := renderMeta text fontSize in
  {| ltext := text;
     lfont := fontSize;
     width := orZ (fst meta) 1;
     height := orZ (snd meta) (Math_round (mul (ofZ fontSize) (lit 16 10))) |}.

(** The [for] loop of [wrapTextToWidth]; [lines] and [current] are its
    two mutable variables. *)
Fixpoint wrapLoop (fontSize maxLineWidth : Z) (ws : list string)
         (lines : list TextLine) (current : string) : list TextLine * string :=
  match ws with
  | [] => (lines, current)
  | w :: rest =>
      let tryLine := if nonEmpty current then current +:+ " " +:+ w else w in
      let measured := renderTrimmedLine tryLine fontSize in
      if width measured <=? maxLineWidth
      then wrapLoop fontSize maxLineWidth rest lines tryLine
      else if nonEmpty current
           then wrapLoop fontSize maxLineWidth rest
                         (lines ++ [renderTrimmedLine current fontSize]) w
           else wrapLoop fontSize maxLineWidth rest (lines ++ [measured]) EmptyString
  end.

Definition wrapTextToWidth (fullText : string) (fontSize maxLineWidth : Z) : Wrapped :=
  let ws := words fullText in
  match ws with
  | [] =>
      let empty := renderTrimmedLine " " fontSize in
      {| lines := [empty]; totalWidth := Some (width empty); totalHeight := height empty |}
  | _ =>
      let '(lines, current) := wrapLoop fontSize maxLineWidth ws [] EmptyString in
      let lines :=
        if nonEmpty current then lines ++ [renderTrimmedLine current fontSize] else lines in
      {| lines := lines;
         totalWidth := maxOf (map width lines);
         totalHeight := sumOf (map height lines) |}
  end.

(** The logo block of [buildWatermarkOverlay]: [Some (logoWidth,
    logoHeight)] when [logoBuffer] is set, [None] when it stays [null]. *)
Definition loadLogo (logoPath : string) (eventFont : Z) : option (Z * Z) :=
  if nonEmpty logoPath && existsSync logoPath then
    let desiredHeight := Math_round (mul (ofZ eventFont) (lit 22 10)) in
    match logoMetadata logoPath with
    | Some (w, h) =>
        if negb (orZ w 0 =? 0) || negb (orZ h 0 =? 0) then
          match logoResized logoPath desiredHeight with
          | Some (rw, rh) => Some (orZ rw 0, orZ rh 0)
          | None => None
          end
        else None
    | None => None
    end
  else None.

(** The text lines right-aligned under the logo: the [for] loop over
    [textLines] with its [cursorY]. *)
Fixpoint placeLines (overlayWidth padding lineGap : Z) (textLines : list TextLine)
         (cursorY : Z) : list Composite :=
  match textLines with
  | [] => []
  | line :: rest =>
      let lineLeft := Z.max 0 (overlayWidth - padding - width line) in
      {| input := TextLayer line; left := lineLeft; top := cursorY |}
        :: placeLines overlayWidth padding lineGap rest (cursorY + height line + lineGap)
  end.

(** [.ensureAlpha().linear([1, 1, 1, alpha], [0, 0, 0, 0])]: sharp applies
    [a * input + b] to each band; the canvas already has four bands. *)
Definition linearBand (a b : num) (v : Z) : num := add (mul a (ofZ v)) b.

Definition linear4 (a b : num * num * num * num) (p : Pixel) : FadedPixel :=
  let '(a0, a1, a2, a3) := a in
  let '(b0, b1, b2, b3) := b in
  {| fred := linearBand a0 b0 (red p);
     fgreen := linearBand a1 b1 (green p);
     fblue := linearBand a2 b2 (blue p);
     falpha := linearBand a3 b3 (alpha p) |}.

(** The opacity step: the last statements of [buildWatermarkOverlay]. *)
Definition fade (watermarkBuffer : list Pixel) (overlayOpacity : num) : list FadedPixel :=
  let alpha := Math_max (ofZ 0) (Math_min (ofZ 1) overlayOpacity) in
  map (linear4 (ofZ 1, ofZ 1, ofZ 1, alpha) (ofZ 0, ofZ 0, ofZ 0, ofZ 0)) watermarkBuffer.

(** [buildWatermarkOverlay].  [None] stands for [null]; the function has
    one [return], of an object. *)
Definition buildWatermarkOverlay (baseWidth baseHeight : Z) (dateText eventText : string)
           (logoPath : string) (marginEm textMaxWidthPct overlayOpacity : num)
  : option WatermarkOverlay :=
  let eventFont := eventFont baseWidth baseHeight in
  let padding := padding eventFont in
  let lineGap := lineGap eventFont in
  let marginPx := marginPx marginEm eventFont in
  let maxTextBlockWidth := maxTextBlockWidth baseWidth textMaxWidthPct marginPx in
  let combinedText := combinedText eventText dateText in
  let logo := loadLogo logoPath eventFont in
  let logoWidth := match logo with Some (w, _) => w | None => 0 end in
  let logoHeight := match logo with Some (_, h) => h | None => 0 end in
  let logoBuffer := match logo with Some _ => true | None => false end in
  let wrapped :=
    wrapTextToWidth (if nonEmpty combinedText then combinedText else " ")
                    eventFont (wrapWidth maxTextBlockWidth padding) in
  let textLines := lines wrapped in
  let textBlockWidth := fold_right Z.max 1 (map width textLines) in
  let textBlockHeight :=
    sumOf (map height textLines)
    + (if 1 <? Z.of_nat (length textLines)
       then (Z.of_nat (length textLines) - 1) * lineGap else 0) in
  let contentWidth := Z.max logoWidth textBlockWidth in
  (* [Math.round] of a sum of integers *)
  let overlayWidth := contentWidth + 2 * padding in
  let overlayHeight :=
    padding + (if logoBuffer then logoHeight + lineGap else 0) + textBlockHeight + padding in
  let logoComposite :=
    if logoBuffer
    then [ {| input := LogoLayer;
              left := Z.max 0 (overlayWidth - padding - logoWidth);
              top := padding |} ]
    else [] in
  let cursorY := padding + (if logoBuffer then logoHeight + lineGap else 0) in
  let composites :=
    logoComposite ++ placeLines overlayWidth padding lineGap textLines cursorY in
  let watermarkBuffer := compositeCanvas overlayWidth overlayHeight composites in
  Some {| buffer := fade watermarkBuffer overlayOpacity;
          ovWidth := overlayWidth;
          ovHeight := overlayHeight;
          fontSize := eventFont;
          ovMarginPx := marginPx |}.

(** The canvas of [buildWatermarkOverlay] and what is composited onto it:
    the statements of the function up to [canvas.composite(composites)]. *)
Record OverlayLayout := mkLayout {
  logo : option (Z * Z);
  textLines : list TextLine;
  overlayWidth : Z;
  overlayHeight : Z;
  composites : list Composite
}.

Definition overlayLayout (baseWidth baseHeight : Z) (dateText eventText : string)
           (logoPath : string) (marginEm textMaxWidthPct : num) : OverlayLayout :=
  let eventFont := eventFont baseWidth baseHeight in
  let padding := padding eventFont in
  let lineGap := lineGap eventFont in
  let marginPx := marginPx marginEm eventFont in
  let maxTextBlockWidth := maxTextBlockWidth baseWidth textMaxWidthPct marginPx in
  let combinedText := combinedText eventText dateText in
  let logo := loadLogo logoPath eventFont in
  let logoWidth := match logo with Some (w, _) => w | None => 0 end in
  let logoHeight := match logo with Some (_, h) => h | None => 0 end in
  let logoBuffer := match logo with Some _ => true | None => false end in
  let wrapped :=
    wrapTextToWidth (if nonEmpty combinedText then combinedText else " ")
                    eventFont (wrapWidth maxTextBlockWidth padding) in
  let textLines := lines wrapped in
  let textBlockWidth := fold_right Z.max 1 (map width textLines) in
  let textBlockHeight :=
    sumOf (map height textLines)
    + (if 1 <? Z.of_nat (length textLines)
       then (Z.of_nat (length textLines) - 1) * lineGap else 0) in
  let contentWidth := Z.max logoWidth textBlockWidth in
  let overlayWidth := contentWidth + 2 * padding in
  let overlayHeight :=
    padding + (if logoBuffer then logoHeight + lineGap else 0) + textBlockHeight + padding in
  let logoComposite :=
    if logoBuffer
    then [ {| input := LogoLayer;
              left := Z.max 0 (overlayWidth - padding - logoWidth);
              top := padding |} ]
    else [] in
  let cursorY := padding + (if logoBuffer then logoHeight + lineGap else 0) in
  {| logo := logo;
     textLines := textLines;
     overlayWidth := overlayWidth;
     overlayHeight := overlayHeight;
     composites :=
       logoComposite ++ placeLines overlayWidth padding lineGap textLines cursorY |}.

(** *** The pipeline of one file: the body of the worker *)

(** sharp: width and height in the metadata of the decoded input. *)
Variable imageMetadata : string -> option Z * option Z.

(** [workerData].  The three layout parameters are optional: the
    destructuring gives them the defaults 1, 0.9 and 0.75. *)
Record WorkerData := mkWorkerData {
  inputPath : string;
  outputPath : string;
  mode : string;
  dateText : string;
  eventText : string;
  logoPath : string;
  marginEm : option num;
  textMaxWidthPct : option num;
  overlayOpacity : option num
}.

Inductive Encoder :=
| Jpeg (quality : Z) (chromaSubsampling : string)
| Png (compressionLevel : Z)
| Webp (quality : Z).

(** What one successful run of the worker does: the path it hands to
    sharp for decoding, whether the colour adjustment is applied, the
    overlay it composites with its offsets, and the file it writes. *)
Record PipelineRun := mkRun {
  decoded : string;
  adjusted : bool;
  composited : option (WatermarkOverlay * Z * Z);
  outPathFinal : string;
  encoder : Encoder
}.

Definition needEdit (mode : string) : bool :=
  String.eqb mode "edit-watermark" || String.eqb mode "edit-only".

Definition needWatermark (mode : string) : bool :=
  String.eqb mode "edit-watermark" || String.eqb mode "watermark-only".

(** [left] and [top] of the composite: bottom right, inset by the margin. *)
Definition overlayLeft (baseWidth wmW marginPx : Z) : Z :=
  Z.max 0 (baseWidth - wmW - marginPx).

Definition overlayTop (baseHeight wmH marginPx : Z) : Z :=
  Z.max 0 (baseHeight - wmH - marginPx).

Definition main (workerData : WorkerData) : PipelineRun :=
  let marginEm := default (ofZ 1) (marginEm workerData) in
  let textMaxWidthPct := default (lit 9 10) (textMaxWidthPct workerData) in
  let overlayOpacity := default (lit 75 100) (overlayOpacity workerData) in
  let meta := imageMetadata (inputPath workerData) in
  let baseWidth := orZ (fst meta) 2000 in
  let baseHeight := orZ (snd meta) 1333 in
  let composited :=
    if needWatermark (mode workerData) then
      match buildWatermarkOverlay baseWidth baseHeight
              (dateText workerData) (eventText workerData) (logoPath workerData)
              marginEm textMaxWidthPct overlayOpacity with
      | Some overlay =>
          let left := overlayLeft baseWidth (ovWidth overlay) (ovMarginPx overlay) in
          let top := overlayTop baseHeight (ovHeight overlay) (ovMarginPx overlay) in
          Some (overlay, left, top)
      | None => None
      end
    else None in
  let outExt := outExtOf (outputPath workerData) in
  {| decoded := inputPath workerData;
     adjusted := needEdit (mode workerData);
     composited := composited;
     outPathFinal := outPathFinalOf (outputPath workerData);
     encoder :=
       if String.eqb outExt ".jpg" || String.eqb outExt ".jpeg" then Jpeg 90 "4:4:4"
       else if String.eqb outExt ".png" then Png 9
       else Webp 90 |}.

End Pipeline.

(** How the body of the worker ends: [toFile] has written the output, or
    something threw and the [catch] has its message. *)
Inductive Ending :=
| Wrote
| Threw (message : string).

(** [parentPort.postMessage]: the type of the message and its [error]
    field, empty when it has none. *)
Definition posted (e : Ending) : string * string :=
  match e with
  | Wrote => ("done", EmptyString)
  | Threw message => ("error", message)
  end.

End Worker.

(** ** server.js: batches, RAW helper, worker pool *)
Module Server.
Import JSString.

Inductive Status := Uploading | Queued | Processing | Zipping | Done | Error.

Inductive FileStatus := FQueued | FOk | FFailed.

Record FileRecord := mkFile {
  name : string;
  fstatus : FileStatus;
  ferror : option string
}.

(** A batch.  [outDir] and [zipPath] are functions of [id] (below). *)
Record Batch := mkBatch {
  id : string;
  mode : string;
  dateText : string;
  eventText : string;
  total : nat;
  processed : nat;
  failed : nat;
  status : Status;
  error : option string;
  files : list FileRecord
}.

Definition createBatch (id mode dateText eventText : string) : Batch :=
  {| id := id; mode := mode; dateText := dateText; eventText := eventText;
     total := 0; processed := 0; failed := 0; status := Uploading;
     error := None; files := [] |}.


(** multer's [fileFilter]. *)
Definition fileFilter (originalname : string) : bool :=
  let allowed := [".jpg"; ".jpeg"; ".png"; ".webp"; ".dng"; ".cr2"; ".nef"] in
  includes allowed (toLowerCase (extname originalname)).

(** Field updates of the batch object. *)
Definition setStatus (st : Status) (b : Batch) : Batch :=
  {| id := id b; mode := mode b; dateText := dateText b; eventText := eventText b;
     total := total b; processed := processed b; failed := failed b; status := st;
     error := error b; files := files b |}.

Definition setError (e : string) (b : Batch) : Batch :=
  {| id := id b; mode := mode b; dateText := dateText b; eventText := eventText b;
     total := total b; processed := processed b; failed := failed b; status := status b;
     error := Some e; files := files b |}.

Definition setFiles (fs : list FileRecord) (b : Batch) : Batch :=
  {| id := id b; mode := mode b; dateText := dateText b; eventText := eventText b;
     total := total b; processed := processed b; failed := failed b; status := status b;
     error := error b; files := fs |}.

Definition setTotal (n : nat) (b : Batch) : Batch :=
  {| id := id b; mode := mode b; dateText := dateText b; eventText := eventText b;
     total := n; processed := processed b; failed := failed b; status := status b;
     error := error b; files := files b |}.

Definition incProcessed (b : Batch) : Batch :=
  {| id := id b; mode := mode b; dateText := dateText b; eventText := eventText b;
     total := total b; processed := S (processed b); failed := failed b;
     status := status b; error := error b; files := files b |}.

Definition incFailed (b : Batch) : Batch :=
  {| id := id b; mode := mode b; dateText := dateText b; eventText := eventText b;
     total := total b; processed := processed b; failed := S (failed b);
     status := status b; error := error b; files := files b |}.

(** [const f = batch.files.find(x => x.name === filename); if (f) ...]:
    the first record of that name is updated. *)
Fixpoint markFile (filename : string) (upd : FileRecord -> FileRecord)
         (fs : list FileRecord) : list FileRecord :=
  match fs with
  | [] => []
  | f :: rest =>
      if String.eqb (name f) filename then upd f :: rest
      else f :: markFile filename upd rest
  end.

Definition markOk (f : FileRecord) : FileRecord :=
  {| name := name f; fstatus := FOk; ferror := ferror f |}.

Definition markFailed (err : string) (f : FileRecord) : FileRecord :=
  {| name := name f; fstatus := FFailed; ferror := Some err |}.

(** The second handler of [POST /api/upload], up to the call of
    [processBatchInBackground]. *)
Definition acceptFiles (originalnames : list string) (b : Batch) : Batch :=
  let fs := map (fun n => {| name := n; fstatus := FQueued; ferror := None |}) originalnames in
  setStatus Queued (setTotal (length fs) (setFiles fs b)).

(** The [.catch] on the promise of [processBatchInBackground]. *)
Definition rejected (err : string) (b : Batch) : Batch :=
  setError err (setStatus Error b).

Definition noOutputMessage : string :=
  "Er zijn geen bewerkte bestanden geproduceerd (mogelijk faalden alle items).".

(** [Math.min(4, Math.max(1, (os.cpus()?.length || 2) - 1))] *)
Definition workerCount (cpus : nat) : nat :=
  Nat.min 4 (Nat.max 1 ((if (cpus =? 0)%nat then 2 else cpus) - 1))%nat.

(** *** RAW helper *)

Definition RAW_EXTS : list string :=
  [".dng"; ".arw"; ".cr2"; ".cr3"; ".nef"; ".orf"; ".raf"; ".rw2"; ".srw"].

Definition RASTER_OK : list string :=
  [".jpg"; ".jpeg"; ".png"; ".tif"; ".tiff"; ".webp"; ".bmp"].

Record Attempt := mkAttempt {
  cmd : string;
  args : list string;
  post : bool
}.

Inductive RasterResult :=
| RasterPath (path : string)
| ConversionFailed (file : string).

(** *** [runWorker]: the promise around one worker thread *)

(** What the worker thread emits: a message with its [type] and [error]
    fields, an [error] event, or its [exit] with a code. *)
Inductive WorkerEvent :=
| OnMessage (type error : string)
| OnError (err : string)
| OnExit (code : Z).

Inductive Settlement :=
| Resolve
| Reject (message : string).

(** The three listeners: what each asks of the promise, if anything. *)
Definition listener (e : WorkerEvent) : option Settlement :=
  match e with
  | OnMessage type error =>
      if String.eqb type "done" then Some Resolve
      else if String.eqb type "error" then Some (Reject error)
      else None
  | OnError err => Some (Reject err)
  | OnExit code =>
      if code =? 0 then None
      else Some (Reject ("Worker exited with code " +:+ pretty code))
  end.

(** The promise of [runWorker] on the events of its worker, in the order
    they are emitted: the first call of [resolve] or [reject] settles it,
    later calls do nothing; [None] is a promise still pending. *)
Fixpoint runWorker (events : list WorkerEvent) : option Settlement :=
  match events with
  | [] => None
  | e :: rest =>
      match listener e with
      | Some s => Some s
      | None => runWorker rest
      end
  end.

(** The events of a worker thread that runs its body to the end: the one
    message it posts, then its exit with code 0. *)
Definition workerEvents (e : Worker.Ending) : list WorkerEvent :=
  [OnMessage (fst (Worker.posted e)) (snd (Worker.posted e)); OnExit 0].

(** *** Answers of the HTTP handlers *)

Inductive Response :=
| ErrorJson (code : Z) (error : string)
| SendFile (path filename : string).

Definition isDone (st : Status) : bool :=
  match st with Done => true | _ => false end.

Section Orchestrator.

Variables ROOT_UPLOADS ROOT_STORAGE ROOT_TMP __dirname tmpdir : string.

(** [os.cpus()?.length], 0 when unavailable. *)
Variable cpus : nat.

(** [execFile]: whether the tool exits with 0, and the files afterwards. *)
Variable runExec : string -> list string -> gset string -> bool * gset string.

Definition outDir (b : Batch) : string := pathJoin (pathJoin ROOT_STORAGE (id b)) "out".
Definition zipPath (b : Batch) : string := pathJoin ROOT_STORAGE (id b +:+ ".zip").
Definition uploadsDir (b : Batch) : string := pathJoin ROOT_UPLOADS (id b).

(** [GET /api/download/:id]; [fs] is the set of existing files. *)
Definition getDownload (batches : gmap string Batch) (fs : gset string) (id : string)
  : Response :=
  match batches !! id with
  | None => ErrorJson 404 "Onbekende batch."
  | Some batch =>
      if negb (isDone (status batch)) then ErrorJson 409 "Batch niet gereed voor download."
      else if negb (bool_decide (zipPath batch ∈ fs)) then ErrorJson 404 "ZIP niet gevonden."
      else SendFile (zipPath batch) (basename (zipPath batch) EmptyString)
  end.

(** The loop over [attempts] in [ensureRasterInput]; [fs] is the set of
    existing files. *)
Fixpoint tryAttempts (attempts : list Attempt) (inputPath base outTif : string)
         (fs : gset string) : RasterResult * gset string :=
  match attempts with
  | [] => (ConversionFailed (basename inputPath EmptyString), fs)
  | a :: rest =>
      let '(ok, fs1) := runExec (cmd a) (args a) fs in
      if ok then
        let fs2 :=
          if post a && negb (bool_decide (outTif ∈ fs1)) then
            let candidate := pathJoin (dirname inputPath) (base +:+ ".tiff") in
            if bool_decide (candidate ∈ fs1) then {[outTif]} ∪ (fs1 ∖ {[candidate]})
            else fs1
          else fs1 in
        if bool_decide (outTif ∈ fs2) then (RasterPath outTif, fs2)
        else tryAttempts rest inputPath base outTif fs2
      else tryAttempts rest inputPath base outTif fs1
  end.

Definition ensureRasterInput (inputPath : string) (fs : gset string)
  : RasterResult * gset string :=
  let ext := toLowerCase (extname inputPath) in
  if includes RASTER_OK ext then (RasterPath inputPath, fs)
  else if negb (includes RAW_EXTS ext) then (RasterPath inputPath, fs)
  else
    let tmpOutDir := pathJoin tmpdir "raw2tiff" in
    let base := basename inputPath ext in
    let outTif := pathJoin tmpOutDir (base +:+ ".tif") in
    let attempts :=
      [ {| cmd := "darktable-cli";
           args := [inputPath; outTif; "--core"; "--disable-opencl"]; post := false |};
        {| cmd := "rawtherapee-cli";
           args := ["-Y"; "-o"; outTif; "-c"; inputPath]; post := false |};
        {| cmd := "dcraw_emu";
           args := ["-w"; "-o"; "1"; "-T"; "-6"; "-c"; inputPath]; post := true |} ] in
    tryAttempts attempts inputPath base outTif fs.

(** *** The worker pool of [processBatchInBackground] *)

(** The [workerData] of one [runWorker] call in [runOne]. *)
Definition payloadOf (b : Batch) (filename : string) : Worker.WorkerData :=
  let inputPath := pathJoin (uploadsDir b) filename in
  let outputPath := pathJoin (outDir b) (replaceRawExt filename) in
  Worker.mkWorkerData inputPath outputPath (mode b) (dateText b) (eventText b)
    (pathJoin (pathJoin __dirname "public") "logo.png") None None None.

(** One of the [workerCount] chains started by [runNext]: about to run
    [runOne], awaiting the worker of a file, or resolved. *)
Inductive Slot :=
| Ready
| Busy (filename : string)
| Resolved.

(** How the promise of [runWorker] settles.  A worker that fails may or
    may not leave a file behind. *)
Inductive Outcome :=
| Fulfilled
| Failed (err : string) (leftover : bool).

Inductive Stage := AtMkdir | AtReaddir | AtZip.

(** Where [processBatchInBackground] stands: the suspension point it is
    waiting at, or how it ended. *)
Inductive Phase :=
| Intake                  (* batch created, multer is storing the files *)
| Refused                 (* multer refused the upload: the handler never runs *)
| Mkdir                   (* [await fs.mkdir(outDir)] *)
| Readdir                 (* [await fs.readdir(uploadsDir)] *)
| Pool (files : list string) (idx : nat) (slots : list Slot)
                          (* [await Promise.all(...)] *)
| ReadOut                 (* [await fs.readdir(outDir)] *)
| Zip                     (* [await zipDirectory(...)] *)
| ReturnedEmpty           (* the [return] of the empty output check *)
| Returned                (* the end of the function *)
| Rejected (at_ : Stage). (* an exception, handled by the [.catch] of the caller *)

(** One [runWorker] call: the chain that made it, the index it claimed
    and the [workerData] it passed. *)
Record Spawn := mkSpawn {
  slot : nat;
  index : nat;
  filename : string;
  payload : Worker.WorkerData
}.

Record State := mkState {
  batch : Batch;
  phase : Phase;
  fs : gset string;
  spawned : list Spawn
}.

(** [fs.readdir(dir)]: the names of the files of [dir], each once, in
    some order. *)
Definition isListing (fs : gset string) (dir : string) (listing : list string) : Prop :=
  NoDup listing ∧ ∀ n, n ∈ listing ↔ pathJoin dir n ∈ fs.

(** The [.then] and [.catch] callbacks on [runWorker]. *)
Definition record (filename : string) (o : Outcome) (b : Batch) : Batch :=
  match o with
  | Fulfilled => setFiles (markFile filename markOk (files b)) (incProcessed b)
  | Failed err _ => setFiles (markFile filename (markFailed err) (files b)) (incFailed b)
  end.

(** The file the worker leaves in the output directory. *)
Definition written (b : Batch) (filename : string) (o : Outcome) : gset string :=
  match o with
  | Failed _ false => ∅
  | _ => {[ Worker.outPathFinalOf (Worker.outputPath (payloadOf b filename)) ]}
  end.

(** The steps of one batch.  Each step is one synchronous run of the
    event loop: from one [await] to the next. *)
Inductive step : State -> State -> Prop :=
| step_intake b fs sp originalnames :
    (* multer: [originalname] is a base name; [fileFilter] accepted every
       file; [upload.array('photos', 500)] *)
    forallb plainName originalnames = true ->
    forallb fileFilter originalnames = true ->
    (length originalnames <= 500)%nat ->
    step (mkState b Intake fs sp)
         (mkState (setStatus Processing (acceptFiles originalnames b)) Mkdir
                  (list_to_set (map (pathJoin (uploadsDir b)) originalnames) ∪ fs) sp)
| step_refuse b fs sp :
    step (mkState b Intake fs sp) (mkState b Refused fs sp)
| step_mkdir b fs sp :
    step (mkState b Mkdir fs sp) (mkState b Readdir fs sp)
| step_mkdir_throws b fs sp err :
    step (mkState b Mkdir fs sp) (mkState (rejected err b) (Rejected AtMkdir) fs sp)
| step_readdir b fs sp listing :
    isListing fs (uploadsDir b) listing ->
    step (mkState b Readdir fs sp)
         (mkState b (Pool listing 0 (replicate (workerCount cpus) Ready)) fs sp)
| step_readdir_throws b fs sp err :
    step (mkState b Readdir fs sp) (mkState (rejected err b) (Rejected AtReaddir) fs sp)
| step_claim b fs sp files idx slots i filename :
    slots !! i = Some Ready ->
    files !! idx = Some filename ->
    nonEmpty filename = true ->
    step (mkState b (Pool files idx slots) fs sp)
         (mkState b (Pool files (S idx) (<[i := Busy filename]> slots)) fs
                  (sp ++ [mkSpawn i idx filename (payloadOf b filename)]))
| step_exhausted b fs sp files idx slots i :
    slots !! i = Some Ready ->
    (files !! idx = None ∨ files !! idx = Some EmptyString) ->
    step (mkState b (Pool files idx slots) fs sp)
         (mkState b (Pool files (S idx) (<[i := Resolved]> slots)) fs sp)
| step_settle b fs sp files idx slots i filename o :
    slots !! i = Some (Busy filename) ->
    step (mkState b (Pool files idx slots) fs sp)
         (mkState (record filename o b) (Pool files idx (<[i := Ready]> slots))
                  (written b filename o ∪ fs) sp)
| step_join b fs sp files idx slots :
    Forall (eq Resolved) slots ->
    step (mkState b (Pool files idx slots) fs sp) (mkState b ReadOut fs sp)
| step_no_output b fs sp :
    isListing fs (outDir b) [] ->
    step (mkState b ReadOut fs sp)
         (mkState (setError noOutputMessage (setStatus Error b)) ReturnedEmpty fs sp)
| step_unreadable b fs sp :
    (* [fs.readdir(outDir)] throws: [.catch(() => [])] *)
    step (mkState b ReadOut fs sp)
         (mkState (setError noOutputMessage (setStatus Error b)) ReturnedEmpty fs sp)
| step_zipping b fs sp outFiles :
    isListing fs (outDir b) outFiles ->
    outFiles <> [] ->
    step (mkState b ReadOut fs sp) (mkState (setStatus Zipping b) Zip fs sp)
| step_zip b fs sp :
    (* the final [batch.files = batch.files.map(...)] maps every record to
       itself *)
    step (mkState b Zip fs sp) (mkState (setStatus Done b) Returned ({[zipPath b]} ∪ fs) sp)
| step_zip_throws b fs sp err :
    step (mkState b Zip fs sp) (mkState (rejected err b) (Rejected AtZip) fs sp).

End Orchestrator.

End Server.

Import JSNum JSString.

(** ** The layout formulas as the specification words them *)
Module OverlaySpec.
Import JSNum.

Definition clamp (v lo hi : Z) : Z := Z.max lo (Z.min hi v).
Definition clampF (v lo hi : num) : num := Math_max lo (Math_min hi v).

(** [fontSize = clamp(round(min(baseWidth,baseHeight) * 0.028), 18, 96)] *)
Definition fontSize (baseWidth baseHeight : Z) : Z :=
  clamp (Math_round (mul (ofZ (Z.min baseWidth baseHeight)) (lit 28 1000))) 18 96.

(** [padding = max(2, round(fontSize*0.35))] *)
Definition padding (fontSize : Z) : Z :=
  Z.max 2 (Math_round (mul (ofZ fontSize) (lit 35 100))).

(** [lineGap = max(2, round(fontSize*0.30))] *)
Definition lineGap (fontSize : Z) : Z :=
  Z.max 2 (Math_round (mul (ofZ fontSize) (lit 30 100))).

(** [marginPx = round(marginEm * fontSize)] *)
Definition marginPx (marginEm : num) (fontSize : Z) : Z :=
  Math_round (mul marginEm (ofZ fontSize)).

(** [round(baseWidth * clamp(textMaxWidthPct, 0.2, 0.98)) - marginPx] *)
Definition maxTextBlockWidth (baseWidth : Z) (textMaxWidthPct : num) (marginPx : Z) : Z :=
  Math_round (mul (ofZ baseWidth) (clampF textMaxWidthPct (lit 2 10) (lit 98 100)))
  - marginPx.

(** "then subtract [2*padding] for the actual wrap width" *)
Definition wrapWidth (maxTextBlockWidth padding : Z) : Z :=
  maxTextBlockWidth - 2 * padding.


End OverlaySpec.


(** ** Vocabulary of the statements *)




(** ** Invariants *)


Section WrapInvariant.

Variable renderMeta : string -> Z -> option Z * option Z.
Variables fontSize maxLineWidth : Z.

(** The line of a group of words: their rendering, joined by spaces. *)
Definition lineOf (g : list string) : Worker.TextLine :=
  Worker.renderTrimmedLine renderMeta (joinSpace g) fontSize.

(** A group of words that makes a line: it is not empty, and it fits the
    wrap width unless it is a single word. *)
Definition goodGroup (g : list string) : Prop :=
  g <> [] ∧ ((1 < length g)%nat -> Worker.width (lineOf g) <= maxLineWidth).

End WrapInvariant.

(** The fields of a batch that the orchestrator never changes once the
    files are accepted. *)
Definition sameCore (b0 b : Server.Batch) : Prop :=
  Server.id b = Server.id b0 ∧ Server.mode b = Server.mode b0
  ∧ Server.dateText b = Server.dateText b0 ∧ Server.eventText b = Server.eventText b0
  ∧ Server.total b = Server.total b0
  ∧ map Server.name (Server.files b) = map Server.name (Server.files b0).

(** The number of chains that await a worker. *)
Definition busy (sl : Server.Slot) : nat :=
  match sl with Server.Busy _ => 1 | _ => 0 end.

Definition busyCount (slots : list Server.Slot) : nat := sum_list (busy <$> slots).

(** What is left to do in the pool: a chain about to claim weighs 1, a
    chain awaiting its worker 2, an unclaimed file 2. *)
Definition slotWeight (sl : Server.Slot) : nat :=
  match sl with
  | Server.Ready => 1
  | Server.Busy _ => 2
  | Server.Resolved => 0
  end.

Definition poolWork (files : list string) (idx : nat) (slots : list Server.Slot) : nat :=
  (sum_list (slotWeight <$> slots) + 2 * (length files - idx))%nat.

Section PoolInvariant.

Variables ROOT_UPLOADS ROOT_STORAGE __dirname : string.

(** The pool runs on the listing [files] with [N] chains; [b0] is the batch
    when the pool starts. *)
Variable files : list string.
Variable N : nat.
Variable b0 : Server.Batch.

(** A claim made by the pool: index and file name agree with the listing,
    the chain exists, and the payload is that of the file. *)
Definition claimOk (c : Server.Spawn) : Prop :=
  files !! Server.index c = Some (Server.filename c)
  ∧ (Server.slot c < N)%nat
  ∧ Server.payload c
    = Server.payloadOf ROOT_UPLOADS ROOT_STORAGE __dirname b0 (Server.filename c).

Definition finished (b : Server.Batch) (sp : list Server.Spawn) : Prop :=
  (Server.processed b + Server.failed b
   = Server.processed b0 + Server.failed b0 + length files)%nat
  ∧ map Server.index sp = seq 0 (length files).

Definition poolInv (s : Server.State) : Prop :=
  let b := Server.batch s in
  let sp := Server.spawned s in
  sameCore b0 b
  ∧ Forall claimOk sp
  ∧ match Server.phase s with
    | Server.Pool files' idx slots =>
        files' = files ∧ length slots = N ∧ Server.status b = Server.status b0
        ∧ (Server.processed b + Server.failed b + busyCount slots
           = Server.processed b0 + Server.failed b0 + Nat.min idx (length files))%nat
        ∧ Forall (fun sl => sl = Server.Resolved -> (length files <= idx)%nat) slots
        ∧ map Server.index sp = seq 0 (Nat.min idx (length files))
    | Server.ReadOut => Server.status b = Server.status b0 ∧ finished b sp
    | Server.Zip => Server.status b = Server.Zipping ∧ finished b sp
    | Server.ReturnedEmpty => Server.status b = Server.Error ∧ finished b sp
    | Server.Returned => Server.status b = Server.Done ∧ finished b sp
    | Server.Rejected Server.AtZip => Server.status b = Server.Error ∧ finished b sp
    | _ => False
    end.

End PoolInvariant.

Section LifeInvariant.

Variables ROOT_UPLOADS ROOT_STORAGE __dirname : string.
Variable cpus : nat.
Variables id mode dateText eventText : string.
Variable fs0 : gset string.

(** The batch as [createBatch] made it. *)
Definition created : Server.Batch := Server.createBatch id mode dateText eventText.

(** The batch when [processBatchInBackground] reaches its first [await]. *)
Definition accepted (originalnames : list string) : Server.Batch :=
  Server.setStatus Server.Processing (Server.acceptFiles originalnames created).

Definition lifeInv (s : Server.State) : Prop :=
  match Server.phase s with
  | Server.Intake | Server.Refused =>
      Server.batch s = created ∧ Server.fs s = fs0 ∧ Server.spawned s = []
  | Server.Mkdir | Server.Readdir =>
      ∃ names,
        forallb Server.fileFilter names = true
        ∧ Server.batch s = accepted names
        ∧ Server.fs s
          = list_to_set (map (pathJoin (Server.uploadsDir ROOT_UPLOADS created)) names) ∪ fs0
        ∧ Server.spawned s = []
  | Server.Rejected Server.AtMkdir | Server.Rejected Server.AtReaddir =>
      ∃ names err, Server.batch s = Server.rejected err (accepted names)
  | _ =>
      ∃ names files,
        forallb Server.fileFilter names = true
        ∧ NoDup files
        ∧ (∀ n, n ∈ files ↔ n ∈ names)
        ∧ poolInv ROOT_UPLOADS ROOT_STORAGE __dirname files (Server.workerCount cpus)
                  (accepted names) s
  end.

End LifeInvariant.

(** ** A concrete environment for the examples

    A fixed-pitch renderer (half the font size per character, one font size
    high), no logo file, a canvas of transparent pixels and a base image of
    the given size. *)
Module Demo.

Definition renderMeta (text : string) (fontSize : Z) : option Z * option Z :=
  (Some (Z.of_nat (String.length text) * (fontSize / 2)), Some fontSize).

Definition existsSync (path : string) : bool := false.

Definition logoMetadata (path : string) : option (option Z * option Z) := None.

Definition logoResized (path : string) (h : Z) : option (option Z * option Z) := None.

Definition compositeCanvas (w h : Z) (layers : list Worker.Composite) : list Worker.Pixel :=
  replicate (Z.to_nat (w * h)) (Worker.mkPixel 0 0 0 0).

Definition imageMetadata (w h : Z) (path : string) : option Z * option Z := (Some w, Some h).

Definition main (w h : Z) : Worker.WorkerData -> Worker.PipelineRun :=
  Worker.main renderMeta existsSync logoMetadata logoResized compositeCanvas
              (imageMetadata w h).

Definition buildWatermarkOverlay :=
  Worker.buildWatermarkOverlay renderMeta existsSync logoMetadata logoResized compositeCanvas.


(** A server under /app, and an [execFile] on which darktable-cli works: it
    exits with 0 and writes its second argument. *)
Definition ROOT_UPLOADS : string := "/app/uploads".
Definition ROOT_STORAGE : string := "/app/storage".
Definition __dirname : string := "/app".
Definition tmpdir : string := "/tmp".

Definition runExec (cmd : string) (args : list string) (fs : gset string)
  : bool * gset string :=
  if String.eqb cmd "darktable-cli"
  then (true, match args with [_; out; _; _] => {[out]} ∪ fs | _ => fs end)
  else (false, fs).

Definition payloadOf : Server.Batch -> string -> Worker.WorkerData :=
  Server.payloadOf ROOT_UPLOADS ROOT_STORAGE __dirname.

Definition step (cpus : nat) : Server.State -> Server.State -> Prop :=
  Server.step ROOT_UPLOADS ROOT_STORAGE __dirname cpus.

End Demo.


(** The part of a file name before its last dot (the whole name when it has
    no dot), and whether [/\.(dng|cr2|nef)$/i] matches the name. *)
Definition stem (filename : string) : string :=
  match splitLastDot filename with
  | Some (pre, _) => pre
  | None => filename
  end.

(** The file a worker writes for an upload: [outPathFinal] of the payload
    of the file. *)
Definition writtenPath (ROOT_UPLOADS ROOT_STORAGE __dirname : string) (b : Server.Batch)
           (filename : string) : string :=
  Worker.outPathFinalOf
    (Worker.outputPath (Server.payloadOf ROOT_UPLOADS ROOT_STORAGE __dirname b filename)).

Fixpoint noDot (s : string) : bool :=
  match s with
  | String c s' => negb (isDot c) && noDot s'
  | EmptyString => true
  end.


(** Every chain of the pool has resolved: [Promise.all] is fulfilled, now or
    earlier. *)
Definition poolJoined (s : Server.State) : Prop :=
  match Server.phase s with
  | Server.Pool _ _ slots => Forall (eq Server.Resolved) slots
  | Server.ReadOut | Server.Zip | Server.ReturnedEmpty | Server.Returned
  | Server.Rejected Server.AtZip => True
  | _ => False
  end.

(** The output directory of the batch holds no file. *)
Definition outEmpty (ROOT_STORAGE : string) (s : Server.State) : Prop :=
  ∀ n, pathJoin (Server.outDir ROOT_STORAGE (Server.batch s)) n ∉ Server.fs s.

(** ** A concrete batch for the examples: one upload, a.jpg, on a machine
    with two cores (one chain in the pool). *)
Module DemoBatch.

Definition b0 : Server.Batch := Server.createBatch "b1" "edit-only" "" "".

Definition init : Server.State := Server.mkState b0 Server.Intake ∅ [].

(** After the upload handler: the file is on disk, the batch is processing. *)
Definition b1 : Server.Batch :=
  Server.setStatus Server.Processing (Server.acceptFiles ["a.jpg"] b0).

Definition fs1 : gset string :=
  list_to_set (map (pathJoin (Server.uploadsDir Demo.ROOT_UPLOADS b0)) ["a.jpg"]) ∪ ∅.

(** After the worker of a.jpg has succeeded. *)
Definition b2 : Server.Batch := Server.record "a.jpg" Server.Fulfilled b1.

Definition fs2 : gset string :=
  Server.written Demo.ROOT_UPLOADS Demo.ROOT_STORAGE Demo.__dirname b1 "a.jpg" Server.Fulfilled
  ∪ fs1.

Definition claims : list Server.Spawn :=
  [] ++ [Server.mkSpawn 0 0 "a.jpg" (Demo.payloadOf b1 "a.jpg")].

(** The pool has completed. *)
Definition pooled : Server.State := Server.mkState b2 Server.ReadOut fs2 claims.

(** The archiver has thrown. *)
Definition zipFailed : Server.State :=
  Server.mkState (Server.rejected "EACCES" (Server.setStatus Server.Zipping b2))
                 (Server.Rejected Server.AtZip) fs2 claims.

(** The archive is written. *)
Definition zipped : Server.State :=
  Server.mkState (Server.setStatus Server.Done (Server.setStatus Server.Zipping b2))
                 Server.Returned
                 ({[Server.zipPath Demo.ROOT_STORAGE (Server.setStatus Server.Zipping b2)]} ∪ fs2)
                 claims.


(** The same file name uploaded twice: one file on disk, two records. *)
Definition twice1 : Server.Batch :=
  Server.setStatus Server.Processing (Server.acceptFiles ["a.jpg"; "a.jpg"] b0).

Definition fsTwice1 : gset string :=
  list_to_set (map (pathJoin (Server.uploadsDir Demo.ROOT_UPLOADS b0)) ["a.jpg"; "a.jpg"]) ∪ ∅.

Definition twice2 : Server.Batch := Server.record "a.jpg" Server.Fulfilled twice1.

Definition fsTwice2 : gset string :=
  Server.written Demo.ROOT_UPLOADS Demo.ROOT_STORAGE Demo.__dirname twice1 "a.jpg"
                 Server.Fulfilled
  ∪ fsTwice1.

Definition twiceZipped : Server.State :=
  Server.mkState (Server.setStatus Server.Done (Server.setStatus Server.Zipping twice2))
                 Server.Returned
                 ({[Server.zipPath Demo.ROOT_STORAGE (Server.setStatus Server.Zipping twice2)]}
                  ∪ fsTwice2)
                 ([] ++ [Server.mkSpawn 0 0 "a.jpg" (Demo.payloadOf twice1 "a.jpg")]).

End DemoBatch.

(** ** Vocabulary of the further properties *)

(** The escape of one character, and the text escaped character by
    character in one pass. *)
Definition escapeChar (c : ascii) : string :=
  if Ascii.eqb c "&" then "&amp;"
  else if Ascii.eqb c "<" then "&lt;"
  else if Ascii.eqb c ">" then "&gt;"
  else if Ascii.eqb c Worker.quot then "&quot;"
  else if Ascii.eqb c "'" then "&apos;"
  else String c EmptyString.

Fixpoint escapeEach (s : string) : string :=
  match s with
  | String c s' => escapeChar c +:+ escapeEach s'
  | EmptyString => EmptyString
  end.

(** The characters that delimit XML markup and attribute values. *)
Definition isMarkup (c : ascii) : bool :=
  Ascii.eqb c "<" || Ascii.eqb c ">" || Ascii.eqb c Worker.quot || Ascii.eqb c "'".

Fixpoint noMarkup (s : string) : bool :=
  match s with
  | String c s' => negb (isMarkup c) && noMarkup s'
  | EmptyString => true
  end.

(** The size of a layer of the overlay: the resized logo, or a rendered
    line of text. *)
Definition layerWidth (logo : option (Z * Z)) (c : Worker.Composite) : Z :=
  match Worker.input c with
  | Worker.LogoLayer => match logo with Some (w, _) => w | None => 0 end
  | Worker.TextLayer line => Worker.width line
  end.

Definition layerHeight (logo : option (Z * Z)) (c : Worker.Composite) : Z :=
  match Worker.input c with
  | Worker.LogoLayer => match logo with Some (_, h) => h | None => 0 end
  | Worker.TextLayer line => Worker.height line
  end.

(** Layers stacked from [y] down to [bottom]: the first begins at [y], each
    next one [gap] below the end of the one before, the last ends at
    [bottom]. *)
Fixpoint stacked (logo : option (Z * Z)) (gap y bottom : Z) (cs : list Worker.Composite)
  : Prop :=
  match cs with
  | [] => True
  | c :: rest =>
      Worker.top c = y
      ∧ match rest with
        | [] => Worker.top c + layerHeight logo c = bottom
        | _ => stacked logo gap (y + layerHeight logo c + gap) bottom rest
        end
  end.

(** The extension of the file written for an upload: that of the upload in
    lower case, and .jpg for the three RAW extensions that are accepted. *)
Definition writtenExt (filename : string) : string :=
  let ext := toLowerCase (extname filename) in
  if includes [".dng"; ".cr2"; ".nef"] ext then ".jpg" else ext.

(** ** Invariants of the files of a batch *)

Section StoreInvariant.

Variables ROOT_UPLOADS ROOT_STORAGE __dirname : string.
Variable id : string.

(** The files that exist when the batch is created. *)
Variable fs0 : gset string.

(** Where a file comes from: it was there before the batch, it is an
    upload of the batch, a worker of the batch wrote it for the file it
    was dispatched with, or it is the archive of the finished batch. *)
Definition accountedFor (s : Server.State) (p : string) : Prop :=
  p ∈ fs0
  ∨ (∃ n, n ∈ map Server.name (Server.files (Server.batch s))
          ∧ p = pathJoin (pathJoin ROOT_UPLOADS id) n)
  ∨ (∃ c, c ∈ Server.spawned s
          ∧ p = writtenPath ROOT_UPLOADS ROOT_STORAGE __dirname (Server.batch s)
                            (Server.filename c))
  ∨ (Server.phase s = Server.Returned ∧ p = pathJoin ROOT_STORAGE (id +:+ ".zip")).

Definition storeInv (s : Server.State) : Prop :=
  Server.id (Server.batch s) = id
  ∧ (∀ p, p ∈ fs0 -> p ∈ Server.fs s)
  ∧ (∀ p, p ∈ Server.fs s -> accountedFor s p)
  ∧ (∀ c, c ∈ Server.spawned s ->
          Server.filename c ∈ map Server.name (Server.files (Server.batch s)))
  ∧ match Server.phase s with
    | Server.Intake => Server.files (Server.batch s) = [] ∧ Server.spawned s = []
    | Server.Refused | Server.Mkdir | Server.Readdir
    | Server.Rejected Server.AtMkdir | Server.Rejected Server.AtReaddir =>
        Server.spawned s = []
    | Server.Pool files _ slots =>
        (∀ f, f ∈ files -> f ∈ map Server.name (Server.files (Server.batch s)))
        ∧ ∀ f, Server.Busy f ∈ slots -> f ∈ map Server.filename (Server.spawned s)
    | Server.Zip => ¬ outEmpty ROOT_STORAGE s
    | Server.Returned =>
        ¬ outEmpty ROOT_STORAGE s
        ∧ Server.zipPath ROOT_STORAGE (Server.batch s) ∈ Server.fs s
    | _ => True
    end.

End StoreInvariant.

(** The phases that follow the pool, and the one of a refused upload: from
    them the pool is never entered. *)
Definition afterPool (ph : Server.Phase) : Prop :=
  match ph with
  | Server.Refused | Server.ReadOut | Server.Zip | Server.ReturnedEmpty | Server.Returned
  | Server.Rejected _ => True
  | _ => False
  end.

(** ** Records and counters *)

#[global] Instance FileStatus_eq_dec : EqDecision Server.FileStatus.
Proof. solve_decision. Defined.







(** A string that does not begin with white space. *)
Definition startsSolid (s : string) : bool :=
  match s with
  | String c _ => negb (isSpace c)
  | EmptyString => true
  end.

(** What every state of a batch keeps of its creation and of its upload. *)
Definition uploadsInv (id mode dateText eventText : string) (s : Server.State) : Prop :=
  let b := Server.batch s in
  Server.id b = id ∧ Server.mode b = mode
  ∧ Server.dateText b = dateText ∧ Server.eventText b = eventText
  ∧ Server.total b = length (map Server.name (Server.files b))
  ∧ (Server.total b <= 500)%nat
  ∧ forallb Server.fileFilter (map Server.name (Server.files b)) = true
  ∧ forallb plainName (map Server.name (Server.files b)) = true.

(** * Properties *)

(** ** Strings and paths *)

Lemma string_app_assoc (a b c : string) : (a +:+ b) +:+ c = a +:+ (b +:+ c).
Proof.
  induction a as [| x a IH]; [reflexivity |].
  change (String x ((a +:+ b) +:+ c) = String x (a +:+ (b +:+ c))). f_equal. exact IH.
Qed.

Lemma pathJoin_inj (dir n1 n2 : string) : pathJoin dir n1 = pathJoin dir n2 -> n1 = n2.
Proof.
  unfold pathJoin. intros H. apply String.app_inj in H. apply String.app_inj in H. exact H.
Qed.

(** ** Numbers *)

(** The literal [0.028] is the binary64 number 8070450532247929 * 2^-58. *)
Example literal_0_028 : lit 28 1000 = S754_finite false 8070450532247929 (-58).
Proof. vm_compute. reflexivity. Qed.

(** [Math.round] rounds ties towards +infinity. *)
Example Math_round_ties :
  Math_round (lit 5 2) = 3 ∧ Math_round (lit (-5) 2) = -2 ∧ Math_round (lit 7 2) = 4.
Proof. vm_compute. repeat split. Qed.

(** The products are those of binary64: [90 * 0.35] lies just below 31.5, so
    the padding at font size 90 is 31. *)
Example padding_at_90 : Worker.padding 90 = 31.
Proof. vm_compute. reflexivity. Qed.

(** The scenario of the specification: a 4000 x 3000 photo gets font size
    84 and a logo height of 185. *)
Example fontSize_4000_3000 :
  Worker.eventFont 4000 3000 = 84 ∧ Math_round (mul (ofZ 84) (lit 22 10)) = 185.
Proof. vm_compute. split; reflexivity. Qed.

Lemma clamp_bounds v lo hi : lo <= hi -> lo <= Worker.clamp v lo hi <= hi.
Proof. unfold Worker.clamp. lia. Qed.

Lemma eventFont_bounds baseWidth baseHeight :
  18 <= Worker.eventFont baseWidth baseHeight <= 96.
Proof. unfold Worker.eventFont. apply clamp_bounds. lia. Qed.


(** ** C6: layout metrics *)




(** ** C9: placement of the overlay *)



Section OverlayFacts.

Variable renderMeta : string -> Z -> option Z * option Z.
Variable existsSync : string -> bool.
Variable logoMetadata : string -> option (option Z * option Z).
Variable logoResized : string -> Z -> option (option Z * option Z).
Variable compositeCanvas : Z -> Z -> list Worker.Composite -> list Worker.Pixel.
Variable imageMetadata : string -> option Z * option Z.

Let build := Worker.buildWatermarkOverlay renderMeta existsSync logoMetadata logoResized
                                          compositeCanvas.
Let main := Worker.main renderMeta existsSync logoMetadata logoResized compositeCanvas
                        imageMetadata.




End OverlayFacts.



(** ** C4: the overlay is never null *)

Section OverlayNull.

Variable renderMeta : string -> Z -> option Z * option Z.
Variable existsSync : string -> bool.
Variable logoMetadata : string -> option (option Z * option Z).
Variable logoResized : string -> Z -> option (option Z * option Z).
Variable compositeCanvas : Z -> Z -> list Worker.Composite -> list Worker.Pixel.
Variable imageMetadata : string -> option Z * option Z.

Let build := Worker.buildWatermarkOverlay renderMeta existsSync logoMetadata logoResized
                                          compositeCanvas.
Let main := Worker.main renderMeta existsSync logoMetadata logoResized compositeCanvas
                        imageMetadata.



End OverlayNull.



(** ** C8: the opacity step *)

#[local] Instance spec_float_eq_dec : EqDecision spec_float.
Proof. solve_decision. Defined.










(** ** C7: greedy word wrap *)

Lemma nonEmpty_app_r (a b : string) : nonEmpty b = true -> nonEmpty (a +:+ b) = true.
Proof. destruct a; [intros H; exact H | reflexivity]. Qed.

Lemma nonEmpty_false (s : string) : nonEmpty s = false -> s = EmptyString.
Proof. destruct s; [reflexivity | discriminate]. Qed.

Lemma words_nonEmpty (s : string) : Forall (fun w => nonEmpty w = true) (words s).
Proof.
  unfold words. induction (splitSpaces s EmptyString false) as [| w l IH]; cbn.
  - constructor.
  - destruct (nonEmpty w) eqn:E; [constructor; assumption | assumption].
Qed.

Lemma joinSpace_cons (w : string) (ws : list string) :
  ws <> [] -> joinSpace (w :: ws) = w +:+ " " +:+ joinSpace ws.
Proof. destruct ws; [congruence | reflexivity]. Qed.

Lemma joinSpace_nonEmpty (ws : list string) :
  Forall (fun w => nonEmpty w = true) ws -> ws <> [] -> nonEmpty (joinSpace ws) = true.
Proof.
  intros H Hne. destruct ws as [| w [| w' rest]]; [congruence | |].
  - inversion H; assumption.
  - rewrite joinSpace_cons by discriminate. inversion H; subst.
    destruct w; [discriminate | reflexivity].
Qed.

Lemma joinSpace_snoc (ws : list string) (w : string) :
  ws <> [] -> joinSpace (ws ++ [w]) = joinSpace ws +:+ " " +:+ w.
Proof.
  induction ws as [| a ws IH]; [congruence |]. intros _.
  destruct ws as [| b ws]; [reflexivity |].
  change ((a :: b :: ws) ++ [w]) with (a :: ((b :: ws) ++ [w])).
  rewrite joinSpace_cons by (destruct ws; discriminate).
  rewrite IH by discriminate.
  rewrite (joinSpace_cons a (b :: ws)) by discriminate.
  rewrite !string_app_assoc. reflexivity.
Qed.

Section Wrap.

Variable renderMeta : string -> Z -> option Z * option Z.
Variables fontSize maxLineWidth : Z.


#[local] Abbreviation lineOf := (lineOf renderMeta fontSize).
#[local] Abbreviation goodGroup := (goodGroup renderMeta fontSize maxLineWidth).

(** The invariant of the loop: [lines] are the lines of complete groups,
    [current] holds the words of the group being filled. *)
Lemma wrapLoop_groups (ws : list string) :
  ∀ (groups : list (list string)) (cur : list string),
    Forall (fun w => nonEmpty w = true) ws ->
    Forall (fun w => nonEmpty w = true) cur ->
    Forall goodGroup groups ->
    ((1 < length cur)%nat -> Worker.width (lineOf cur) <= maxLineWidth) ->
    ∃ (groups' : list (list string)) (cur' : list string),
      Worker.wrapLoop renderMeta fontSize maxLineWidth ws (map lineOf groups) (joinSpace cur)
      = (map lineOf groups', joinSpace cur')
      ∧ concat groups' ++ cur' = concat groups ++ cur ++ ws
      ∧ Forall (fun w => nonEmpty w = true) cur'
      ∧ Forall goodGroup groups'
      ∧ ((1 < length cur')%nat -> Worker.width (lineOf cur') <= maxLineWidth).
Proof.
  induction ws as [| w ws IH]; intros groups cur Hws Hcur Hg Hfit.
  - exists groups, cur. cbn. rewrite app_nil_r. auto.
  - inversion Hws as [| ? ? Hw Hws']; subst. cbn [Worker.wrapLoop].
    destruct cur as [| c cur0].
    + (* no current line: [tryLine] is the word *)
      cbn [joinSpace nonEmpty].
      destruct (Worker.width (Worker.renderTrimmedLine renderMeta w fontSize) <=? maxLineWidth)
        eqn:Efit.
      * destruct (IH groups [w]) as (groups' & cur' & E & Hc & H1 & H2 & H3).
        { exact Hws'. }
        { constructor; [exact Hw | constructor]. }
        { exact Hg. }
        { cbn. lia. }
        exists groups', cur'. split; [exact E |]. split; [| auto].
        rewrite Hc. reflexivity.
      * destruct (IH (groups ++ [[w]]) []) as (groups' & cur' & E & Hc & H1 & H2 & H3).
        { exact Hws'. }
        { constructor. }
        { apply Forall_app. split; [assumption |]. constructor; [| constructor].
          split; [discriminate | cbn; lia]. }
        { cbn. lia. }
        exists groups', cur'. split.
        { rewrite map_app in E. exact E. }
        split; [| auto]. rewrite Hc, concat_app. cbn. rewrite <- !app_assoc. reflexivity.
    + (* a current line: [tryLine] appends the word *)
      assert (Hne : nonEmpty (joinSpace (c :: cur0)) = true)
        by (apply joinSpace_nonEmpty; [assumption | discriminate]).
      rewrite Hne.
      rewrite <- (joinSpace_snoc (c :: cur0) w) by discriminate.
      destruct (Worker.width (Worker.renderTrimmedLine renderMeta
                                (joinSpace ((c :: cur0) ++ [w])) fontSize) <=? maxLineWidth)
        eqn:Efit.
      * destruct (IH groups ((c :: cur0) ++ [w])) as (groups' & cur' & E & Hc & H1 & H2 & H3).
        { exact Hws'. }
        { apply Forall_app. split; [assumption | constructor; [assumption | constructor]]. }
        { exact Hg. }
        { intros _. apply Z.leb_le in Efit. exact Efit. }
        exists groups', cur'. split; [exact E |]. split; [| auto].
        rewrite Hc, <- !app_assoc. reflexivity.
      * destruct (IH (groups ++ [c :: cur0]) [w]) as (groups' & cur' & E & Hc & H1 & H2 & H3).
        { exact Hws'. }
        { constructor; [exact Hw | constructor]. }
        { apply Forall_app. split; [assumption |]. constructor; [| constructor].
          split; [discriminate | assumption]. }
        { cbn. lia. }
        exists groups', cur'. split.
        { rewrite map_app in E. exact E. }
        split; [| auto]. rewrite Hc, concat_app. cbn. rewrite <- !app_assoc. cbn.
        rewrite app_nil_r. reflexivity.
Qed.

(** The lines of a text that has words are the lines of a partition of its
    words into good groups. *)
Lemma wrapTextToWidth_groups (fullText : string) :
  words fullText <> [] ->
  ∃ groups : list (list string),
    Worker.lines (Worker.wrapTextToWidth renderMeta fullText fontSize maxLineWidth)
    = map lineOf groups
    ∧ concat groups = words fullText
    ∧ Forall goodGroup groups.
Proof.
  intros Hne. unfold Worker.wrapTextToWidth.
  destruct (wrapLoop_groups (words fullText) [] [])
    as (groups & cur & E & Hc & H1 & H2 & H3).
  { apply words_nonEmpty. } { constructor. } { constructor. } { cbn. lia. }
  cbn [map joinSpace concat app] in E, Hc.
  destruct (words fullText) as [| w0 ws0] eqn:Ew; [congruence |].
  rewrite E. destruct cur as [| c cur0].
  - exists groups. cbn. rewrite app_nil_r in Hc. auto.
  - rewrite (joinSpace_nonEmpty (c :: cur0)) by (assumption || discriminate).
    exists (groups ++ [c :: cur0]). cbn [Worker.lines].
    split; [rewrite map_app; reflexivity |].
    split; [rewrite concat_app; cbn; rewrite app_nil_r; exact Hc |].
    apply Forall_app. split; [assumption |]. constructor; [| constructor].
    split; [discriminate | assumption].
Qed.



End Wrap.



(** ** C5: output file names *)

Lemma noDot_splitLastDot (t : string) : noDot t = true -> splitLastDot t = None.
Proof.
  induction t as [| c t IH]; [reflexivity |]. cbn [noDot splitLastDot].
  intros [Hc Ht]%andb_true_iff. rewrite (IH Ht).
  destruct (isDot c); [discriminate Hc | reflexivity].
Qed.

(** The split of [pre ++ "." ++ tail] when [tail] has no dot. *)
Lemma splitLastDot_ext (pre tail : string) :
  noDot tail = true -> splitLastDot (pre +:+ String "." tail) = Some (pre, tail).
Proof.
  intros Ht. induction pre as [| c pre IH].
  - change (splitLastDot (String "." tail) = Some (EmptyString, tail)).
    cbn [splitLastDot]. rewrite (noDot_splitLastDot tail Ht). reflexivity.
  - change (String c pre +:+ String "." tail) with (String c (pre +:+ String "." tail)).
    cbn [splitLastDot]. rewrite IH. reflexivity.
Qed.

Lemma splitLastDot_jpg (pre : string) : splitLastDot (pre +:+ ".jpg") = Some (pre, "jpg").
Proof. apply (splitLastDot_ext pre "jpg"). reflexivity. Qed.

(** A prefix in front of a string with a dot does not move the last dot. *)
Lemma splitLastDot_prefix (x s pre tail : string) :
  splitLastDot s = Some (pre, tail) -> splitLastDot (x +:+ s) = Some (x +:+ pre, tail).
Proof.
  intros Hs. induction x as [| c x IH]; [exact Hs |].
  change (String c x +:+ s) with (String c (x +:+ s)).
  cbn [splitLastDot]. rewrite IH. reflexivity.
Qed.




Lemma plainName_lastComponent (n : string) : plainName n = true -> lastComponent n = n.
Proof.
  intros Hn. unfold lastComponent.
  assert (H : splitLastSlash n = None); [| rewrite H; reflexivity].
  induction n as [| c n IH]; [reflexivity |]. cbn [plainName splitLastSlash] in *.
  apply andb_true_iff in Hn as [Hc Hn]. rewrite (IH Hn).
  destruct (isSlash c); [discriminate Hc | reflexivity].
Qed.



Section Written.

Variables ROOT_UPLOADS ROOT_STORAGE __dirname : string.
Variable b : Server.Batch.

#[local] Abbreviation writtenPath := (writtenPath ROOT_UPLOADS ROOT_STORAGE __dirname b).



End Written.



(** ** C1: RAW inputs and the converter chain *)

(** The worker hands its [inputPath] to sharp as it is. *)
Lemma main_decodes_inputPath renderMeta existsSync logoMetadata logoResized compositeCanvas
      imageMetadata (workerData : Worker.WorkerData) :
  Worker.decoded (Worker.main renderMeta existsSync logoMetadata logoResized compositeCanvas
                              imageMetadata workerData)
  = Worker.inputPath workerData.
Proof. reflexivity. Qed.

(** The [inputPath] of a dispatched file is the upload itself. *)
Lemma payloadOf_inputPath ROOT_UPLOADS ROOT_STORAGE __dirname (b : Server.Batch)
      (filename : string) :
  Worker.inputPath (Server.payloadOf ROOT_UPLOADS ROOT_STORAGE __dirname b filename)
  = pathJoin (Server.uploadsDir ROOT_UPLOADS b) filename.
Proof. reflexivity. Qed.

(** C1 fails on the code.  The upload IMG_1.dng passes multer's filter and is
    dispatched with its own path as [inputPath]; that path has a known RAW
    extension and is what the worker decodes, for every file and every
    environment.  [ensureRasterInput], which would have answered with the
    converted /tmp/raw2tiff/IMG_1.tif, is called nowhere. *)
Theorem C1_raw_input_decoded_unconverted :
  let b := Server.createBatch "b1" "edit-only" "" "" in
  let workerData := Demo.payloadOf b "IMG_1.dng" in
  Server.fileFilter "IMG_1.dng" = true
  ∧ Worker.inputPath workerData = "/app/uploads/b1/IMG_1.dng"
  ∧ includes Server.RAW_EXTS (toLowerCase (extname (Worker.inputPath workerData))) = true
  ∧ includes Server.RASTER_OK (toLowerCase (extname (Worker.inputPath workerData))) = false
  ∧ (∀ renderMeta existsSync logoMetadata logoResized compositeCanvas imageMetadata,
       Worker.decoded (Worker.main renderMeta existsSync logoMetadata logoResized
                                   compositeCanvas imageMetadata workerData)
       = "/app/uploads/b1/IMG_1.dng")
  ∧ fst (Server.ensureRasterInput Demo.tmpdir Demo.runExec (Worker.inputPath workerData) ∅)
    = Server.RasterPath "/tmp/raw2tiff/IMG_1.tif".
Proof.
  intros b workerData.
  split; [reflexivity |]. split; [reflexivity |]. split; [reflexivity |].
  split; [reflexivity |]. split; [intros; reflexivity |].
  vm_compute. reflexivity.
Qed.

(** ** The worker pool *)

Lemma sameCore_refl b : sameCore b b.
Proof. repeat split. Qed.

Lemma markFile_names filename upd (fs : list Server.FileRecord) :
  (∀ f, Server.name (upd f) = Server.name f) ->
  map Server.name (Server.markFile filename upd fs) = map Server.name fs.
Proof.
  intros Hupd. induction fs as [| f fs IH]; [reflexivity |]. cbn.
  destruct (String.eqb (Server.name f) filename); cbn; [rewrite Hupd | rewrite IH]; reflexivity.
Qed.

Lemma sameCore_record b0 b filename o :
  sameCore b0 b -> sameCore b0 (Server.record filename o b).
Proof.
  intros (? & ? & ? & ? & ? & Hn). destruct o; repeat split; cbn; try assumption;
    rewrite markFile_names; auto.
Qed.

Lemma sameCore_setStatus b0 b st : sameCore b0 b -> sameCore b0 (Server.setStatus st b).
Proof. intros (? & ? & ? & ? & ? & ?). repeat split; assumption. Qed.

Lemma sameCore_setError b0 b e : sameCore b0 b -> sameCore b0 (Server.setError e b).
Proof. intros (? & ? & ? & ? & ? & ?). repeat split; assumption. Qed.

Lemma sameCore_rejected b0 b e : sameCore b0 b -> sameCore b0 (Server.rejected e b).
Proof. intros H. apply sameCore_setError, sameCore_setStatus, H. Qed.

Lemma record_counters filename o b :
  (Server.processed (Server.record filename o b) + Server.failed (Server.record filename o b)
   = S (Server.processed b + Server.failed b))%nat
  ∧ Server.status (Server.record filename o b) = Server.status b.
Proof. destruct o; cbn; split; lia || reflexivity. Qed.

Lemma busyCount_insert (slots : list Server.Slot) (i : nat) (old new : Server.Slot) :
  slots !! i = Some old ->
  (busyCount (<[i := new]> slots) + busy old = busyCount slots + busy new)%nat.
Proof.
  unfold busyCount. revert i. induction slots as [| sl slots IH]; intros i Hi; [discriminate |].
  destruct i as [| i]; csimpl in *.
  - injection Hi as ->. lia.
  - specialize (IH i Hi). lia.
Qed.

Lemma busyCount_resolved (slots : list Server.Slot) :
  Forall (eq Server.Resolved) slots -> busyCount slots = 0%nat.
Proof.
  unfold busyCount. induction 1 as [| sl slots <- _ IH]; [reflexivity |]. cbn. exact IH.
Qed.

Lemma lookup_seq_all {A} (l : list A) :
  (fun i => l !! i) <$> seq 0 (length l) = Some <$> l.
Proof.
  apply list_eq. intros i. rewrite !list_lookup_fmap.
  destruct (l !! i) as [x |] eqn:E.
  - rewrite lookup_seq_lt by (eapply lookup_lt_Some; exact E). cbn. rewrite E. reflexivity.
  - rewrite lookup_seq_ge by (apply lookup_ge_None; exact E). reflexivity.
Qed.

Ltac state_fields :=
  cbn [Server.phase Server.batch Server.spawned Server.fs
       Server.slot Server.index Server.filename Server.payload].

Tactic Notation "state_fields" "in" hyp(H) :=
  cbn [Server.phase Server.batch Server.spawned Server.fs
       Server.slot Server.index Server.filename Server.payload] in H.

Section PoolFacts.

Variables ROOT_UPLOADS ROOT_STORAGE __dirname : string.
Variable cpus : nat.

#[local] Abbreviation step := (Server.step ROOT_UPLOADS ROOT_STORAGE __dirname cpus).
#[local] Abbreviation payloadOf := (Server.payloadOf ROOT_UPLOADS ROOT_STORAGE __dirname).

Lemma payloadOf_sameCore b0 b filename :
  sameCore b0 b -> payloadOf b filename = payloadOf b0 filename.
Proof.
  intros (Hi & Hm & Hd & He & _). unfold Server.payloadOf, Server.uploadsDir, Server.outDir.
  rewrite Hi, Hm, Hd, He. reflexivity.
Qed.

(** The pool starts on the listing [files] with [N] chains, on the batch
    [b0]. *)
Variable files : list string.
Variable N : nat.
Variable b0 : Server.Batch.

Hypothesis N_pos : (1 <= N)%nat.
Hypothesis files_nonEmpty : Forall (fun f => nonEmpty f = true) files.

#[local] Abbreviation claimOk := (claimOk ROOT_UPLOADS ROOT_STORAGE __dirname files N b0).
#[local] Abbreviation finished := (finished files b0).
#[local] Abbreviation poolInv := (poolInv ROOT_UPLOADS ROOT_STORAGE __dirname files N b0).

Lemma poolInv_start fs :
  poolInv (Server.mkState b0 (Server.Pool files 0 (replicate N Server.Ready)) fs []).
Proof.
  split; [apply sameCore_refl |]. split; [constructor |]. cbn.
  split; [reflexivity |]. split; [apply length_replicate |]. split; [reflexivity |].
  split.
  { unfold busyCount. rewrite fmap_replicate, sum_list_replicate. cbn. lia. }
  split; [| reflexivity].
  apply Forall_replicate. discriminate.
Qed.

Lemma poolInv_step s s' : poolInv s -> step s s' -> poolInv s'.
Proof.
  intros (Hcore & Hsp & Hph) Hstep.
  destruct Hstep; unfold poolInv; state_fields; state_fields in Hcore;
    state_fields in Hsp; state_fields in Hph; try contradiction.
  - (* claim *)
    destruct Hph as (-> & Hlen & Hst & Hcnt & Hres & Hidx).
    assert (Hlt : (idx < length files)%nat) by (eapply lookup_lt_Some; eassumption).
    split; [exact Hcore |]. split.
    { apply Forall_app. split; [exact Hsp |]. constructor; [| constructor].
      split; [assumption |]. split.
      - state_fields. rewrite <- Hlen. eapply lookup_lt_Some; eassumption.
      - state_fields. apply payloadOf_sameCore, Hcore. }
    state_fields. split; [reflexivity |]. split; [rewrite length_insert; exact Hlen |].
    split; [exact Hst |]. split.
    { pose proof (busyCount_insert slots i _ (Server.Busy filename) H) as Hb.
      cbn [busy] in Hb. lia. }
    split.
    { apply Forall_insert; [| discriminate].
      eapply Forall_impl; [exact Hres |]. cbn. intros sl Hsl E. specialize (Hsl E). lia. }
    rewrite map_app, Hidx. cbn [map Server.index].
    replace (Nat.min idx (length files)) with idx by lia.
    replace (Nat.min (S idx) (length files)) with (S idx) by lia.
    rewrite seq_S. reflexivity.
  - (* the listing is exhausted *)
    destruct Hph as (-> & Hlen & Hst & Hcnt & Hres & Hidx).
    assert (Hge : (length files <= idx)%nat).
    { destruct H0 as [Hnone | Hempty]; [apply lookup_ge_None; exact Hnone |].
      exfalso. pose proof (Forall_lookup_1 _ _ _ _ files_nonEmpty Hempty) as Hne.
      discriminate Hne. }
    split; [exact Hcore |]. split; [exact Hsp |].
    state_fields. split; [reflexivity |]. split; [rewrite length_insert; exact Hlen |].
    split; [exact Hst |]. split.
    { pose proof (busyCount_insert slots i _ Server.Resolved H) as Hb. cbn [busy] in Hb. lia. }
    split.
    { apply Forall_insert; [| intros _; lia].
      eapply Forall_impl; [exact Hres |]. cbn. intros sl Hsl E. specialize (Hsl E). lia. }
    rewrite Hidx. replace (Nat.min (S idx) (length files)) with (Nat.min idx (length files))
      by lia. reflexivity.
  - (* a worker settles *)
    destruct Hph as (-> & Hlen & Hst & Hcnt & Hres & Hidx).
    destruct (record_counters filename o b) as [Hrc Hrs].
    split; [apply sameCore_record, Hcore |]. split; [exact Hsp |].
    state_fields. split; [reflexivity |]. split; [rewrite length_insert; exact Hlen |].
    split; [rewrite Hrs; exact Hst |]. split.
    { pose proof (busyCount_insert slots i _ Server.Ready H) as Hb. cbn [busy] in Hb. lia. }
    split; [| exact Hidx].
    apply Forall_insert; [exact Hres | discriminate].
  - (* all chains have resolved *)
    destruct Hph as (-> & Hlen & Hst & Hcnt & Hres & Hidx).
    assert (Hge : (length files <= idx)%nat).
    { destruct slots as [| sl slots]; [cbn in Hlen; lia |].
      inversion H as [| ? ? Hsl _]; subst. inversion Hres as [| ? ? Hr _]; subst.
      apply Hr. reflexivity. }
    rewrite (busyCount_resolved _ H) in Hcnt.
    split; [exact Hcore |]. split; [exact Hsp |].
    split; [exact Hst |]. split; [lia |].
    rewrite Hidx. f_equal. lia.
  - (* no output *)
    destruct Hph as [Hst Hfin].
    split; [apply sameCore_setError, sameCore_setStatus, Hcore |]. split; [exact Hsp |].
    split; [reflexivity | exact Hfin].
  - destruct Hph as [Hst Hfin].
    split; [apply sameCore_setError, sameCore_setStatus, Hcore |]. split; [exact Hsp |].
    split; [reflexivity | exact Hfin].
  - (* zipping *)
    destruct Hph as [Hst Hfin].
    split; [apply sameCore_setStatus, Hcore |]. split; [exact Hsp |].
    split; [reflexivity | exact Hfin].
  - (* zipped *)
    destruct Hph as [Hst Hfin].
    split; [apply sameCore_setStatus, Hcore |]. split; [exact Hsp |].
    split; [reflexivity | exact Hfin].
  - (* the archiver throws *)
    destruct Hph as [Hst Hfin].
    split; [apply sameCore_rejected, Hcore |]. split; [exact Hsp |].
    split; [reflexivity | exact Hfin].
Qed.

Lemma poolInv_reachable s0 s : poolInv s0 -> rtc step s0 s -> poolInv s.
Proof. intros H0 Hrun. induction Hrun; [exact H0 | eauto using poolInv_step]. Qed.

(** Claims with the indices 0, 1, ..., [length files - 1] in this order name
    the files of the listing in this order. *)
Lemma claims_cover (sp : list Server.Spawn) :
  Forall claimOk sp ->
  map Server.index sp = seq 0 (length files) ->
  map Server.filename sp = files.
Proof.
  intros Hok Hidx.
  assert (E : Some <$> map Server.filename sp = Some <$> files).
  { rewrite <- (lookup_seq_all files), <- Hidx.
    change (Some <$> (Server.filename <$> sp)
            = (fun i : nat => files !! i) <$> (Server.index <$> sp)).
    rewrite <- !list_fmap_compose. apply Forall_fmap_ext_1.
    eapply Forall_impl; [exact Hok |]. cbn. intros c (Hc & _). rewrite Hc. reflexivity. }
  apply (list_fmap_eq_inj Some) in E; [exact E |]. intros x y [= ->]. reflexivity.
Qed.

End PoolFacts.

(** ** C10: every file is claimed exactly once *)

Lemma slots_cases (slots : list Server.Slot) :
  (∃ i, slots !! i = Some Server.Ready)
  ∨ (∃ i filename, slots !! i = Some (Server.Busy filename))
  ∨ Forall (eq Server.Resolved) slots.
Proof.
  induction slots as [| sl slots IH]; [right; right; constructor |].
  destruct sl as [| filename |].
  - left. exists 0%nat. reflexivity.
  - right. left. exists 0%nat, filename. reflexivity.
  - destruct IH as [[i Hi] | [(i & filename & Hi) | Hall]].
    + left. exists (S i). exact Hi.
    + right. left. exists (S i), filename. exact Hi.
    + right. right. constructor; [reflexivity | exact Hall].
Qed.

Lemma slotWeight_insert (slots : list Server.Slot) (i : nat) (old new : Server.Slot) :
  slots !! i = Some old ->
  (sum_list (slotWeight <$> <[i := new]> slots) + slotWeight old
   = sum_list (slotWeight <$> slots) + slotWeight new)%nat.
Proof.
  revert i. induction slots as [| sl slots IH]; intros i Hi; [discriminate |].
  destruct i as [| i]; csimpl in *.
  - injection Hi as ->. lia.
  - specialize (IH i Hi). lia.
Qed.

Section PoolRuns.

Variables ROOT_UPLOADS ROOT_STORAGE __dirname : string.
Variable cpus : nat.

#[local] Abbreviation step := (Server.step ROOT_UPLOADS ROOT_STORAGE __dirname cpus).
#[local] Abbreviation payloadOf := (Server.payloadOf ROOT_UPLOADS ROOT_STORAGE __dirname).

(** The pool cannot get stuck and cannot run for ever: while a chain has
    not resolved there is a step, and every step inside the pool leaves
    less work. *)
Lemma pool_step_decreases b fs sp files idx slots b' fs' sp' files' idx' slots' :
  step (Server.mkState b (Server.Pool files idx slots) fs sp)
       (Server.mkState b' (Server.Pool files' idx' slots') fs' sp') ->
  files' = files ∧ (poolWork files idx' slots' < poolWork files idx slots)%nat.
Proof.
  intros Hstep. inversion Hstep; subst; (split; [reflexivity |]); unfold poolWork;
    match goal with
    | H : _ !! _ = Some ?old |- context [<[_ := ?new]> _] =>
        pose proof (slotWeight_insert _ _ _ new H) as Hw; cbn [slotWeight] in Hw
    end;
    try match goal with
        | H : _ !! _ = Some ?f |- context [Server.Busy ?f] =>
            apply lookup_lt_Some in H
        end;
    lia.
Qed.

Lemma pool_can_join (n : nat) :
  ∀ b fs sp files idx slots,
    Forall (fun f => nonEmpty f = true) files ->
    (poolWork files idx slots <= n)%nat ->
    ∃ s', rtc step (Server.mkState b (Server.Pool files idx slots) fs sp) s'
          ∧ poolJoined s'.
Proof.
  induction n as [| n IH]; intros b fs sp files idx slots Hne Hwork.
  - (* no work left: no chain is ready or busy *)
    exists (Server.mkState b (Server.Pool files idx slots) fs sp). split; [apply rtc_refl |].
    cbn. destruct (slots_cases slots) as [[i Hi] | [(i & f & Hi) | Hall]]; [| | exact Hall].
    + pose proof (slotWeight_insert slots i _ Server.Resolved Hi) as Hw.
      unfold poolWork in Hwork. cbn [slotWeight] in Hw. lia.
    + pose proof (slotWeight_insert slots i _ Server.Resolved Hi) as Hw.
      unfold poolWork in Hwork. cbn [slotWeight] in Hw. lia.
  - destruct (slots_cases slots) as [[i Hi] | [(i & f & Hi) | Hall]].
    + destruct (files !! idx) as [filename |] eqn:Ef.
      * assert (Hf : nonEmpty filename = true)
          by exact (Forall_lookup_1 _ _ _ _ Hne Ef).
        pose proof (Server.step_claim ROOT_UPLOADS ROOT_STORAGE __dirname cpus
                      b fs sp files idx slots i filename Hi Ef Hf) as Hstep.
        destruct (pool_step_decreases _ _ _ _ _ _ _ _ _ _ _ _ Hstep) as [_ Hlt].
        edestruct IH as (s' & Hrun & Hj); [exact Hne | | ].
        2: { exists s'. split; [eapply rtc_l; [exact Hstep | exact Hrun] | exact Hj]. }
        lia.
      * pose proof (Server.step_exhausted ROOT_UPLOADS ROOT_STORAGE __dirname cpus
                      b fs sp files idx slots i Hi (or_introl Ef)) as Hstep.
        destruct (pool_step_decreases _ _ _ _ _ _ _ _ _ _ _ _ Hstep) as [_ Hlt].
        edestruct IH as (s' & Hrun & Hj); [exact Hne | | ].
        2: { exists s'. split; [eapply rtc_l; [exact Hstep | exact Hrun] | exact Hj]. }
        lia.
    + pose proof (Server.step_settle ROOT_UPLOADS ROOT_STORAGE __dirname cpus
                    b fs sp files idx slots i f Server.Fulfilled Hi) as Hstep.
      destruct (pool_step_decreases _ _ _ _ _ _ _ _ _ _ _ _ Hstep) as [_ Hlt].
      edestruct IH as (s' & Hrun & Hj); [exact Hne | | ].
      2: { exists s'. split; [eapply rtc_l; [exact Hstep | exact Hrun] | exact Hj]. }
      lia.
    + exists (Server.mkState b (Server.Pool files idx slots) fs sp).
      split; [apply rtc_refl | exact Hall].
Qed.

(** C10: in a pool of N >= 1 chains over a listing without empty names,
    the claimed indices are always 0, 1, 2, ... in this order, so that no
    index is claimed twice and none is passed over; every claim is made by
    one chain of the pool, for the file at its index, with the payload of
    that file; once all chains have resolved, every file of the listing has
    been dispatched exactly once; and the pool can always run on until all
    chains have resolved. *)
Theorem C10_pool_claims_exactly_once (N : nat) (files : list string) (b : Server.Batch)
        (fs : gset string) (s : Server.State) :
  (1 <= N)%nat ->
  Forall (fun f => nonEmpty f = true) files ->
  rtc step (Server.mkState b (Server.Pool files 0 (replicate N Server.Ready)) fs []) s ->
  let sp := Server.spawned s in
  (∃ k, (k <= length files)%nat ∧ map Server.index sp = seq 0 k)
  ∧ Forall (fun c => files !! Server.index c = Some (Server.filename c)
                     ∧ (Server.slot c < N)%nat
                     ∧ Server.payload c = payloadOf b (Server.filename c)) sp
  ∧ (poolJoined s ->
     map Server.index sp = seq 0 (length files) ∧ map Server.filename sp = files)
  ∧ (∃ s', rtc step s s' ∧ poolJoined s').
Proof.
  intros HN Hne Hrun sp.
  assert (Hinv : poolInv ROOT_UPLOADS ROOT_STORAGE __dirname files N b s).
  { eapply poolInv_reachable; [exact HN | exact Hne | | exact Hrun].
    apply poolInv_start; assumption. }
  destruct Hinv as (Hcore & Hsp & Hph).
  fold sp in Hsp, Hph.
  assert (Hjoined : poolJoined s -> map Server.index sp = seq 0 (length files)).
  { unfold poolJoined. destruct (Server.phase s) as [| | | | files' idx slots | | | | | []];
      try contradiction; try (intros _; apply Hph).
    destruct Hph as (-> & Hlen & _ & _ & Hres & Hidx). intros Hall.
    rewrite Hidx. f_equal.
    destruct slots as [| sl slots]; [cbn in Hlen; lia |].
    inversion Hall as [| ? ? <- _]; subst. inversion Hres as [| ? ? Hr _]; subst.
    specialize (Hr eq_refl). lia. }
  split; [| split; [exact Hsp | split]].
  - destruct (Server.phase s) as [| | | | files' idx slots | | | | | []];
      try contradiction;
      try (exists (length files); split; [lia | apply Hph]).
    destruct Hph as (_ & _ & _ & _ & _ & Hidx).
    exists (Nat.min idx (length files)). split; [lia | exact Hidx].
  - intros Hj. split; [exact (Hjoined Hj) |].
    eapply claims_cover; [exact Hsp | exact (Hjoined Hj)].
  - destruct s as [b' ph fs' sp']. cbn in Hph.
    destruct ph as [| | | | files' idx slots | | | | | []]; try contradiction;
      try (eexists; split; [apply rtc_refl | exact I]).
    destruct Hph as (-> & _).
    apply (pool_can_join _ b' fs' sp' files idx slots Hne (Nat.le_refl _)).
Qed.

End PoolRuns.

(** Steps of a concrete run. *)
Ltac run_claim k :=
  eapply rtc_l;
  [eapply Server.step_claim with (i := k); reflexivity | csimpl].

Ltac run_exhausted k :=
  eapply rtc_l;
  [eapply Server.step_exhausted with (i := k); [reflexivity | left; reflexivity] | csimpl].

Ltac run_settle k outcome :=
  eapply rtc_l;
  [eapply Server.step_settle with (i := k) (o := outcome); reflexivity | csimpl].

(** Two chains on three files: a.jpg and b.dng are claimed first; the worker
    of b.dng fails and its chain takes c.png; all three are dispatched, each
    once. *)
Lemma C10_pool_claims_exactly_once_witness :
  let files := ["a.jpg"; "b.dng"; "c.png"] in
  let b := Server.createBatch "b1" "edit-only" "" "" in
  ∃ s, rtc (Demo.step 3)
           (Server.mkState b (Server.Pool files 0 (replicate 2 Server.Ready)) ∅ []) s
       ∧ poolJoined s
       ∧ map Server.index (Server.spawned s) = [0; 1; 2]%nat
       ∧ map Server.filename (Server.spawned s) = files.
Proof.
  intros files b.
  assert (Hrun : ∃ s, rtc (Demo.step 3)
                          (Server.mkState b (Server.Pool files 0 (replicate 2 Server.Ready))
                                          ∅ []) s
                      ∧ poolJoined s).
  { eexists. split.
    - unfold Demo.step. cbn [replicate].
      run_claim 0%nat. run_claim 1%nat.
      run_settle 1%nat (Server.Failed "Input file is missing" false).
      run_claim 1%nat.
      run_settle 0%nat Server.Fulfilled.
      run_exhausted 0%nat.
      run_settle 1%nat Server.Fulfilled.
      run_exhausted 1%nat.
      apply rtc_refl.
    - cbn. repeat constructor. }
  destruct Hrun as (s & Hrun & Hj). exists s.
  split; [exact Hrun |]. split; [exact Hj |].
  assert (Hne : Forall (fun f => nonEmpty f = true) files) by (repeat constructor).
  destruct (C10_pool_claims_exactly_once Demo.ROOT_UPLOADS Demo.ROOT_STORAGE Demo.__dirname 3
              2%nat files b ∅ s (Nat.le_succ_diag_r 1) Hne Hrun) as (_ & _ & Hall & _).
  exact (Hall Hj).
Defined.

(** ** The life of a batch *)

Lemma workerCount_pos cpus : (1 <= Server.workerCount cpus <= 4)%nat.
Proof. unfold Server.workerCount. lia. Qed.

Lemma fileFilter_nonEmpty (n : string) : Server.fileFilter n = true -> nonEmpty n = true.
Proof. destruct n; [discriminate | reflexivity]. Qed.

Lemma forallb_elem_of {A} (f : A -> bool) (l : list A) (x : A) :
  forallb f l = true -> x ∈ l -> f x = true.
Proof.
  intros H Hx. rewrite forallb_forall in H. apply H, list_elem_of_In, Hx.
Qed.

Section Life.

Variables ROOT_UPLOADS ROOT_STORAGE __dirname : string.
Variable cpus : nat.

#[local] Abbreviation step := (Server.step ROOT_UPLOADS ROOT_STORAGE __dirname cpus).
#[local] Abbreviation uploadsDir := (Server.uploadsDir ROOT_UPLOADS).
#[local] Abbreviation poolInv := (poolInv ROOT_UPLOADS ROOT_STORAGE __dirname).

(** The batch as [createBatch] made it, and the files that exist then; the
    upload directory of the batch does not exist yet. *)
Variables id mode dateText eventText : string.
Variable fs0 : gset string.

#[local] Abbreviation b0 := (created id mode dateText eventText).
#[local] Abbreviation accepted := (accepted id mode dateText eventText).
#[local] Abbreviation lifeInv :=
  (lifeInv ROOT_UPLOADS ROOT_STORAGE __dirname cpus id mode dateText eventText fs0).

Hypothesis fresh : ∀ n, pathJoin (uploadsDir b0) n ∉ fs0.

Lemma accepted_names originalnames :
  map Server.name (Server.files (accepted originalnames)) = originalnames.
Proof.
  cbn. induction originalnames as [| n ns IH]; [reflexivity |]. cbn. rewrite IH. reflexivity.
Qed.

Lemma accepted_total originalnames :
  Server.total (accepted originalnames) = length originalnames.
Proof. cbn. apply length_map. Qed.

Lemma lifeInv_pool_step s s' :
  (∃ names files,
      forallb Server.fileFilter names = true
      ∧ NoDup files
      ∧ (∀ n, n ∈ files ↔ n ∈ names)
      ∧ poolInv files (Server.workerCount cpus) (accepted names) s) ->
  step s s' ->
  ∃ names files,
    forallb Server.fileFilter names = true
    ∧ NoDup files
    ∧ (∀ n, n ∈ files ↔ n ∈ names)
    ∧ poolInv files (Server.workerCount cpus) (accepted names) s'.
Proof.
  intros (names & files & Hf & Hnd & Hin & Hinv) Hstep.
  exists names, files. repeat (split; [assumption |]).
  eapply poolInv_step; [apply workerCount_pos | | exact Hinv | exact Hstep].
  apply Forall_forall. intros f Hfin. apply fileFilter_nonEmpty.
  eapply forallb_elem_of; [exact Hf |]. apply Hin, Hfin.
Qed.

Lemma lifeInv_step s s' : lifeInv s -> step s s' -> lifeInv s'.
Proof.
  intros Hinv Hstep.
  destruct Hstep; unfold lifeInv in *; state_fields; state_fields in Hinv;
    try (eapply lifeInv_pool_step;
         [exact Hinv | econstructor; eassumption]).
  - (* intake *)
    destruct Hinv as (-> & -> & ->). exists originalnames. repeat split; assumption.
  - exact Hinv.
  - exact Hinv.
  - destruct Hinv as (names & _ & -> & _). exists names, err. reflexivity.
  - (* the listing of the uploads *)
    destruct Hinv as (names & Hf & -> & Hfs & Hsp). subst fs sp.
    destruct H as [Hnd Hl].
    assert (Hin : ∀ n, n ∈ listing ↔ n ∈ names).
    { intros n. rewrite Hl, elem_of_union, elem_of_list_to_set. split.
      - intros [Hn | Hn]; [| exfalso; exact (fresh n Hn)].
        apply list_elem_of_fmap in Hn as (n' & E & Hn'). apply pathJoin_inj in E. subst. exact Hn'.
      - intros Hn. left. apply list_elem_of_fmap. exists n. split; [reflexivity | exact Hn]. }
    assert (Hne : Forall (fun f => nonEmpty f = true) listing).
    { apply Forall_forall. intros f Hfin. apply fileFilter_nonEmpty.
      eapply forallb_elem_of; [exact Hf |]. apply Hin, Hfin. }
    exists names, listing. repeat (split; [assumption |]).
    apply poolInv_start; first [apply workerCount_pos | exact Hne].
  - destruct Hinv as (names & _ & -> & _). exists names, err. reflexivity.
Qed.

Lemma lifeInv_run s0 s : lifeInv s0 -> rtc step s0 s -> lifeInv s.
Proof. intros H0 Hrun. induction Hrun; [exact H0 | eauto using lifeInv_step]. Qed.

Lemma lifeInv_reachable s :
  rtc step (Server.mkState b0 Server.Intake fs0 []) s -> lifeInv s.
Proof. apply lifeInv_run. repeat split. Qed.

(** What the invariant says about the counters once the pool exists. *)
Lemma pool_counters names files (s : Server.State) :
  NoDup files ->
  (∀ n, n ∈ files ↔ n ∈ names) ->
  poolInv files (Server.workerCount cpus) (accepted names) s ->
  let b := Server.batch s in
  Server.total b = length names
  ∧ map Server.name (Server.files b) = names
  ∧ (length files <= length names)%nat
  ∧ (NoDup names -> length files = length names)
  ∧ match Server.phase s with
    | Server.Pool _ _ _ | Server.ReadOut =>
        Server.status b = Server.Processing
        ∧ (Server.processed b + Server.failed b <= length files)%nat
    | Server.Zip =>
        Server.status b = Server.Zipping
        ∧ (Server.processed b + Server.failed b = length files)%nat
    | Server.Returned =>
        Server.status b = Server.Done
        ∧ (Server.processed b + Server.failed b = length files)%nat
    | Server.ReturnedEmpty | Server.Rejected Server.AtZip =>
        Server.status b = Server.Error
        ∧ (Server.processed b + Server.failed b = length files)%nat
    | _ => False
    end.
Proof.
  intros Hnd Hin ((_ & _ & _ & _ & Ht & Hn) & _ & Hph) b. fold b in Ht, Hn, Hph.
  rewrite accepted_total in Ht. rewrite accepted_names in Hn.
  split; [exact Ht |]. split; [exact Hn |]. split.
  { apply submseteq_length, NoDup_submseteq; [exact Hnd | intros n; apply Hin]. }
  split.
  { intros Hnames. apply Permutation_length, NoDup_Permutation; assumption. }
  unfold finished in Hph. change (Server.processed (accepted names)) with 0%nat in Hph.
  change (Server.failed (accepted names)) with 0%nat in Hph.
  change (Server.status (accepted names)) with Server.Processing in Hph.
  destruct (Server.phase s) as [| | | | files' idx slots | | | | | []]; try exact Hph.
  - destruct Hph as (_ & _ & Hst & Hcnt & _). split; [exact Hst | lia].
  - destruct Hph as (Hst & Hcnt & _). split; [exact Hst | lia].
  - destruct Hph as (Hst & Hcnt & _). split; [exact Hst | lia].
  - destruct Hph as (Hst & Hcnt & _). split; [exact Hst | lia].
  - destruct Hph as (Hst & Hcnt & _). split; [exact Hst | lia].
  - destruct Hph as (Hst & Hcnt & _). split; [exact Hst | lia].
Qed.


Lemma listing_of_empty (fs : gset string) (dir : string) (listing : list string) :
  (∀ n, pathJoin dir n ∉ fs) -> Server.isListing fs dir listing -> listing = [].
Proof.
  intros Hempty [_ Hl]. destruct listing as [| n l]; [reflexivity |].
  exfalso. apply (Hempty n), Hl. left.
Qed.

(** The status of each phase. *)
Lemma phase_status (s : Server.State) :
  lifeInv s ->
  match Server.phase s with
  | Server.Intake | Server.Refused => Server.status (Server.batch s) = Server.Uploading
  | Server.Mkdir | Server.Readdir | Server.Pool _ _ _ | Server.ReadOut =>
      Server.status (Server.batch s) = Server.Processing
  | Server.Zip => Server.status (Server.batch s) = Server.Zipping
  | Server.Returned => Server.status (Server.batch s) = Server.Done
  | Server.ReturnedEmpty | Server.Rejected _ => Server.status (Server.batch s) = Server.Error
  end.
Proof.
  unfold lifeInv. intros Hinv.
  destruct (Server.phase s) as [| | | | files' idx slots | | | | | []] eqn:Eph;
    try (destruct Hinv as (Hb & _); rewrite Hb; reflexivity);
    try (destruct Hinv as (names & _ & Hb & _); rewrite Hb; reflexivity);
    try (destruct Hinv as (names & err & Hb); rewrite Hb; reflexivity);
    destruct Hinv as (names & files & _ & Hnd & Hin & Hp);
    pose proof (pool_counters names files s Hnd Hin Hp) as (_ & _ & _ & _ & H);
    rewrite Eph in H; apply H.
Qed.

(** C3, amended: the status is Error exactly when [processBatchInBackground]
    took the early return of the empty output check or threw (creating the
    output directory, listing the uploads or archiving failed), and Done
    exactly when it ran to its end.  After the pool has completed, an empty
    output directory leads to the early return, hence to Error, and a
    directory that is listed as non-empty leads to Zipping; from Zipping the
    batch becomes Done when the archiver succeeds and Error when it throws.
    Early return, end and exception are final: an Error never becomes
    Done. *)
Theorem C3_error_done_amended (s : Server.State) :
  rtc step (Server.mkState b0 Server.Intake fs0 []) s ->
  let b := Server.batch s in
  (Server.status b = Server.Done ↔ Server.phase s = Server.Returned)
  ∧ (Server.status b = Server.Error
     ↔ Server.phase s = Server.ReturnedEmpty ∨ ∃ st, Server.phase s = Server.Rejected st)
  ∧ (Server.phase s = Server.ReadOut ->
     ∀ s', step s s' ->
       (Server.phase s' = Server.ReturnedEmpty ∨ Server.phase s' = Server.Zip)
       ∧ (outEmpty ROOT_STORAGE s -> Server.phase s' = Server.ReturnedEmpty)
       ∧ (Server.phase s' = Server.Zip -> ¬ outEmpty ROOT_STORAGE s))
  ∧ (Server.phase s = Server.ReadOut -> outEmpty ROOT_STORAGE s ->
     ∃ s', step s s' ∧ Server.status (Server.batch s') = Server.Error)
  ∧ (Server.phase s = Server.Zip ->
     ∀ s', step s s' ->
       Server.phase s' = Server.Returned ∨ Server.phase s' = Server.Rejected Server.AtZip)
  ∧ (Server.phase s = Server.ReturnedEmpty ∨ Server.phase s = Server.Returned
     ∨ (∃ st, Server.phase s = Server.Rejected st) ->
     ∀ s', ¬ step s s').
Proof.
  intros Hrun b. pose proof (phase_status s (lifeInv_reachable s Hrun)) as Hst.
  fold b in Hst.
  split; [| split; [| split; [| split; [| split]]]].
  - destruct (Server.phase s) as [| | | | ? ? ? | | | | | ?]; rewrite Hst;
      split; intros H; try discriminate H; reflexivity.
  - destruct (Server.phase s) as [| | | | ? ? ? | | | | | st]; rewrite Hst;
      (split; [intros H; try discriminate H | intros [H | [st' H]]; try discriminate H]);
      try reflexivity.
    + left. reflexivity.
    + right. exists st. reflexivity.
  - intros Eph s' Hstep. destruct Hstep; try discriminate Eph; state_fields.
    + split; [left; reflexivity |]. split; [reflexivity | discriminate].
    + split; [left; reflexivity |]. split; [reflexivity | discriminate].
    + split; [right; reflexivity |]. split.
      * intros Hempty. exfalso.
        match goal with H : _ <> [] |- _ => apply H end.
        eapply listing_of_empty; [exact Hempty | eassumption].
      * intros _ Hempty.
        match goal with H : _ <> [] |- _ => apply H end.
        eapply listing_of_empty; [exact Hempty | eassumption].
  - intros Eph Hempty. destruct s as [bs ph fs sp]. cbn in Eph. subst ph.
    eexists. split.
    + apply Server.step_no_output. split; [constructor |].
      intros n. split; [intros H; inversion H | intros H; destruct (Hempty n H)].
    + reflexivity.
  - intros Eph s' Hstep. destruct Hstep; try discriminate Eph; state_fields.
    + left. reflexivity.
    + right. reflexivity.
  - intros Eph s' Hstep.
    destruct Hstep; state_fields in Eph;
      destruct Eph as [Eph | [Eph | [st Eph]]]; discriminate Eph.
Qed.

End Life.

(** ** Concrete runs *)

Lemma demo_uploads_listing :
  Server.isListing DemoBatch.fs1 (Server.uploadsDir Demo.ROOT_UPLOADS DemoBatch.b1) ["a.jpg"].
Proof.
  split; [repeat constructor; set_solver |].
  intros n. unfold DemoBatch.fs1. cbn [map].
  rewrite list_elem_of_singleton, elem_of_union, elem_of_list_to_set, list_elem_of_singleton.
  split.
  - intros ->. left. reflexivity.
  - intros [H | H]; [| set_solver].
    change (pathJoin "/app/uploads/b1" n = pathJoin "/app/uploads/b1" "a.jpg") in H.
    exact (pathJoin_inj _ _ _ H).
Qed.

Lemma demo_out_listing :
  Server.isListing DemoBatch.fs2 (Server.outDir Demo.ROOT_STORAGE DemoBatch.b2) ["a.jpg"].
Proof.
  split; [repeat constructor; set_solver |].
  intros n. unfold DemoBatch.fs2, DemoBatch.fs1, Server.written. cbn [map].
  rewrite list_elem_of_singleton, !elem_of_union, elem_of_singleton, elem_of_list_to_set,
    list_elem_of_singleton.
  split.
  - intros ->. left. reflexivity.
  - intros [H | [H | H]]; [| | set_solver].
    + change (pathJoin "/app/storage/b1/out" n = pathJoin "/app/storage/b1/out" "a.jpg") in H.
      exact (pathJoin_inj _ _ _ H).
    + exfalso. vm_compute in H. discriminate H.
Qed.

Lemma demo_run_mkdir : rtc (Demo.step 2) DemoBatch.init
                           (Server.mkState DemoBatch.b1 Server.Mkdir DemoBatch.fs1 []).
Proof.
  apply rtc_once. apply (Server.step_intake _ _ _ _ DemoBatch.b0 ∅ [] ["a.jpg"]).
  - reflexivity.
  - reflexivity.
  - cbn. lia.
Qed.

(** One upload, processed, up to the completion of the pool. *)
Lemma demo_run_pooled : rtc (Demo.step 2) DemoBatch.init DemoBatch.pooled.
Proof.
  eapply rtc_trans; [exact demo_run_mkdir |].
  eapply rtc_l; [apply Server.step_mkdir |].
  eapply rtc_l; [apply Server.step_readdir; exact demo_uploads_listing |].
  eapply rtc_l; [apply Server.step_claim with (i := 0%nat) (filename := "a.jpg"); reflexivity |].
  eapply rtc_l;
    [apply Server.step_settle with (i := 0%nat) (o := Server.Fulfilled); reflexivity |].
  eapply rtc_l;
    [apply Server.step_exhausted with (i := 0%nat); [reflexivity | left; reflexivity] |].
  eapply rtc_l; [apply Server.step_join; repeat constructor |].
  apply rtc_refl.
Qed.

Lemma demo_run_zipFailed : rtc (Demo.step 2) DemoBatch.pooled DemoBatch.zipFailed.
Proof.
  eapply rtc_l; [eapply Server.step_zipping; [exact demo_out_listing | discriminate] |].
  eapply rtc_l; [apply Server.step_zip_throws with (err := "EACCES") |].
  apply rtc_refl.
Qed.

Lemma demo_run_zipped : rtc (Demo.step 2) DemoBatch.init DemoBatch.zipped.
Proof.
  eapply rtc_trans; [exact demo_run_pooled |].
  eapply rtc_l; [eapply Server.step_zipping; [exact demo_out_listing | discriminate] |].
  eapply rtc_l; [apply Server.step_zip |].
  apply rtc_refl.
Qed.


Lemma demo_fresh :
  ∀ n, pathJoin (Server.uploadsDir Demo.ROOT_UPLOADS DemoBatch.b0) n ∉ (∅ : gset string).
Proof. intros n. apply not_elem_of_empty. Qed.



(** C3, as stated, fails: the pool has completed and the output directory
    holds a.jpg, yet the batch becomes Error, because the archiver throws. *)
Lemma C3_error_done_counterexample :
  rtc (Demo.step 2) DemoBatch.init DemoBatch.pooled
  ∧ Server.phase DemoBatch.pooled = Server.ReadOut
  ∧ ¬ outEmpty Demo.ROOT_STORAGE DemoBatch.pooled
  ∧ rtc (Demo.step 2) DemoBatch.pooled DemoBatch.zipFailed
  ∧ Server.status (Server.batch DemoBatch.zipFailed) = Server.Error.
Proof.
  split; [exact demo_run_pooled |]. split; [reflexivity |]. split.
  - intros Hempty. apply (Hempty "a.jpg").
    apply (proj2 demo_out_listing). left.
  - split; [exact demo_run_zipFailed | reflexivity].
Qed.

(** On the run that is archived, Done goes with the end of the function,
    and nothing follows it. *)
Lemma C3_error_done_amended_witness :
  (Server.status (Server.batch DemoBatch.zipped) = Server.Done
   ↔ Server.phase DemoBatch.zipped = Server.Returned)
  ∧ ∀ s', ¬ Demo.step 2 DemoBatch.zipped s'.
Proof.
  pose proof (C3_error_done_amended Demo.ROOT_UPLOADS Demo.ROOT_STORAGE Demo.__dirname
                2 "b1" "edit-only" "" "" ∅ demo_fresh DemoBatch.zipped demo_run_zipped)
    as (Hdone & _ & _ & _ & _ & Hfinal).
  split; [exact Hdone |].
  apply Hfinal. right. left. reflexivity.
Defined.

(** Two uploads named a.jpg are one file in the upload directory: the pool
    processes it once, and the batch is Done with total = 2 and
    processed + failed = 1; the second record stays queued.  The equality
    of the counters with the total needs pairwise distinct names. *)
Lemma demo_same_name_twice :
  rtc (Demo.step 2) DemoBatch.init DemoBatch.twiceZipped
  ∧ Server.status (Server.batch DemoBatch.twiceZipped) = Server.Done
  ∧ Server.total (Server.batch DemoBatch.twiceZipped) = 2%nat
  ∧ (Server.processed (Server.batch DemoBatch.twiceZipped)
     + Server.failed (Server.batch DemoBatch.twiceZipped))%nat = 1%nat
  ∧ map Server.fstatus (Server.files (Server.batch DemoBatch.twiceZipped))
    = [Server.FOk; Server.FQueued].
Proof.
  split; [| repeat split].
  assert (Hup : Server.isListing DemoBatch.fsTwice1
                  (Server.uploadsDir Demo.ROOT_UPLOADS DemoBatch.twice1) ["a.jpg"]).
  { split; [repeat constructor; set_solver |].
    intros n. unfold DemoBatch.fsTwice1. cbn [map].
    rewrite list_elem_of_singleton, elem_of_union, elem_of_list_to_set.
    split.
    - intros ->. left. left.
    - intros [H | H]; [| set_solver].
      assert (E : pathJoin "/app/uploads/b1" n = pathJoin "/app/uploads/b1" "a.jpg")
        by (apply elem_of_cons in H as [H | H];
            [exact H | apply list_elem_of_singleton in H; exact H]).
      exact (pathJoin_inj _ _ _ E). }
  assert (Hout : Server.isListing DemoBatch.fsTwice2
                   (Server.outDir Demo.ROOT_STORAGE DemoBatch.twice2) ["a.jpg"]).
  { split; [repeat constructor; set_solver |].
    intros n. unfold DemoBatch.fsTwice2, DemoBatch.fsTwice1, Server.written. cbn [map].
    rewrite list_elem_of_singleton, !elem_of_union, elem_of_singleton, elem_of_list_to_set.
    split.
    - intros ->. left. reflexivity.
    - intros [H | [H | H]]; [| | set_solver].
      + change (pathJoin "/app/storage/b1/out" n = pathJoin "/app/storage/b1/out" "a.jpg") in H.
        exact (pathJoin_inj _ _ _ H).
      + exfalso.
        assert (E : pathJoin "/app/storage/b1/out" n = "/app/uploads/b1/a.jpg")
          by (apply elem_of_cons in H as [H | H];
              [exact H | apply list_elem_of_singleton in H; exact H]).
        vm_compute in E. discriminate E. }
  eapply rtc_l.
  { apply (Server.step_intake _ _ _ _ DemoBatch.b0 ∅ [] ["a.jpg"; "a.jpg"]);
      [reflexivity | reflexivity | cbn; lia]. }
  eapply rtc_l; [apply Server.step_mkdir |].
  eapply rtc_l; [apply Server.step_readdir; exact Hup |].
  eapply rtc_l; [apply Server.step_claim with (i := 0%nat) (filename := "a.jpg"); reflexivity |].
  eapply rtc_l;
    [apply Server.step_settle with (i := 0%nat) (o := Server.Fulfilled); reflexivity |].
  eapply rtc_l;
    [apply Server.step_exhausted with (i := 0%nat); [reflexivity | left; reflexivity] |].
  eapply rtc_l; [apply Server.step_join; repeat constructor |].
  eapply rtc_l; [eapply Server.step_zipping; [exact Hout | discriminate] |].
  eapply rtc_l; [apply Server.step_zip |].
  apply rtc_refl.
Qed.

(** * Further properties *)

(** ** escapeXml *)

Lemma append_cons (c : ascii) (a b : string) : String c a +:+ b = String c (a +:+ b).
Proof. reflexivity. Qed.

Lemma append_nil_l (b : string) : EmptyString +:+ b = b.
Proof. reflexivity. Qed.

Lemma append_nil_r (a : string) : a +:+ EmptyString = a.
Proof. induction a as [| c a IH]; [reflexivity |]. rewrite append_cons, IH. reflexivity. Qed.

Lemma replaceAll_app (c : ascii) (r a b : string) :
  replaceAll c r (a +:+ b) = replaceAll c r a +:+ replaceAll c r b.
Proof.
  induction a as [| x a IH]; [reflexivity |].
  rewrite append_cons. cbn [replaceAll]. rewrite IH.
  destruct (Ascii.eqb x c); [rewrite string_app_assoc |]; reflexivity.
Qed.

Lemma escapeXml_app (a b : string) :
  Worker.escapeXml (a +:+ b) = Worker.escapeXml a +:+ Worker.escapeXml b.
Proof. unfold Worker.escapeXml. rewrite !replaceAll_app. reflexivity. Qed.

Lemma escapeXml_char (c : ascii) : Worker.escapeXml (String c EmptyString) = escapeChar c.
Proof.
  unfold Worker.escapeXml, escapeChar. cbn [replaceAll].
  destruct (Ascii.eqb c "&"); [reflexivity |]. cbn [replaceAll].
  destruct (Ascii.eqb c "<"); [reflexivity |]. cbn [replaceAll].
  destruct (Ascii.eqb c ">"); [reflexivity |]. cbn [replaceAll].
  destruct (Ascii.eqb c Worker.quot); [reflexivity |]. cbn [replaceAll].
  destruct (Ascii.eqb c "'"); reflexivity.
Qed.

Lemma escapeXml_each (text : string) : Worker.escapeXml text = escapeEach text.
Proof.
  induction text as [| c text IH]; [reflexivity |].
  change (String c text) with (String c EmptyString +:+ text).
  rewrite escapeXml_app, escapeXml_char, IH. reflexivity.
Qed.

Lemma noMarkup_app (a b : string) : noMarkup (a +:+ b) = noMarkup a && noMarkup b.
Proof.
  induction a as [| c a IH]; [reflexivity |].
  rewrite append_cons. cbn [noMarkup]. rewrite IH, andb_assoc. reflexivity.
Qed.

Lemma noMarkup_escapeChar (c : ascii) : noMarkup (escapeChar c) = true.
Proof.
  unfold escapeChar.
  destruct (Ascii.eqb c "&"); [reflexivity |].
  destruct (Ascii.eqb c "<") eqn:E1; [reflexivity |].
  destruct (Ascii.eqb c ">") eqn:E2; [reflexivity |].
  destruct (Ascii.eqb c Worker.quot) eqn:E3; [reflexivity |].
  destruct (Ascii.eqb c "'") eqn:E4; [reflexivity |].
  cbn [noMarkup]. unfold isMarkup. rewrite E1, E2, E3, E4. reflexivity.
Qed.

(** Two escaped texts that agree begin with the same character. *)
Lemma escapeChar_inj (c1 c2 : ascii) (r1 r2 : string) :
  escapeChar c1 +:+ r1 = escapeChar c2 +:+ r2 -> c1 = c2 ∧ r1 = r2.
Proof.
  unfold escapeChar, Worker.quot.
  destruct (Ascii.eqb_spec c1 "&"), (Ascii.eqb_spec c1 "<"), (Ascii.eqb_spec c1 ">"),
    (Ascii.eqb_spec c1 (ascii_of_nat 34)), (Ascii.eqb_spec c1 "'");
    destruct (Ascii.eqb_spec c2 "&"), (Ascii.eqb_spec c2 "<"), (Ascii.eqb_spec c2 ">"),
      (Ascii.eqb_spec c2 (ascii_of_nat 34)), (Ascii.eqb_spec c2 "'");
    rewrite ?append_cons, ?append_nil_l; intros H; subst;
    try discriminate; try (injection H; intros; subst; split; congruence).
Qed.

Lemma escapeEach_inj (a b : string) : escapeEach a = escapeEach b -> a = b.
Proof.
  revert b. induction a as [| c a IH]; intros [| d b] H.
  - reflexivity.
  - exfalso. cbn [escapeEach] in H. unfold escapeChar in H.
    repeat (destruct (Ascii.eqb d _) in H; [discriminate H |]). discriminate H.
  - exfalso. cbn [escapeEach] in H. unfold escapeChar in H.
    repeat (destruct (Ascii.eqb c _) in H; [discriminate H |]). discriminate H.
  - cbn [escapeEach] in H. apply escapeChar_inj in H as [-> H]. f_equal. apply IH, H.
Qed.

(** X1: the five replacements of [escapeXml] amount to one pass that
    escapes each character once: an ampersand written by a replacement is
    not escaped again.  The result holds none of the characters <, >, double
    quote and apostrophe, escaping distributes over concatenation, and two
    texts with the same escape are the same text. *)
Theorem escapeXml_one_pass (text : string) :
  Worker.escapeXml text = escapeEach text
  ∧ noMarkup (Worker.escapeXml text) = true
  ∧ (∀ more, Worker.escapeXml (text +:+ more)
             = Worker.escapeXml text +:+ Worker.escapeXml more)
  ∧ (∀ other, Worker.escapeXml text = Worker.escapeXml other -> text = other).
Proof.
  split; [apply escapeXml_each |]. split.
  - rewrite escapeXml_each. induction text as [| c text IH]; [reflexivity |].
    cbn [escapeEach]. rewrite noMarkup_app, noMarkup_escapeChar, IH. reflexivity.
  - split; [intros more; apply escapeXml_app |].
    intros other H. rewrite !escapeXml_each in H. apply escapeEach_inj, H.
Qed.

(** A text with markup and an ampersand. *)
Lemma escapeXml_one_pass_witness :
  Worker.escapeXml "R&D <'24>" = "R&amp;D &lt;&apos;24&gt;"
  ∧ noMarkup (Worker.escapeXml "R&D <'24>") = true
  ∧ "R&D <'24>" = "R&D <'24>".
Proof.
  destruct (escapeXml_one_pass "R&D <'24>") as (Heach & Hno & _ & Hinj).
  split; [rewrite Heach; reflexivity |]. split; [exact Hno |].
  apply Hinj. reflexivity.
Defined.

(** ** The layout of the overlay *)

Lemma fold_left_Zadd (xs : list Z) (a : Z) : fold_left Z.add xs a = a + fold_left Z.add xs 0.
Proof.
  revert a. induction xs as [| x xs IH]; intros a; cbn [fold_left]; [lia |].
  rewrite (IH (a + x)), (IH (0 + x)). lia.
Qed.

Lemma sumOf_cons (x : Z) (xs : list Z) : Worker.sumOf (x :: xs) = x + Worker.sumOf xs.
Proof. unfold Worker.sumOf. cbn. apply fold_left_Zadd. Qed.

Lemma fold_right_max_ge (d : Z) (xs : list Z) :
  d <= fold_right Z.max d xs ∧ Forall (fun x => x <= fold_right Z.max d xs) xs.
Proof.
  induction xs as [| x xs [IH1 IH2]]; cbn; [split; [lia | constructor] |].
  split; [lia |]. constructor; [lia |].
  eapply Forall_impl; [exact IH2 |]. cbn. intros y Hy. lia.
Qed.

Lemma fold_right_max_le (d b : Z) (xs : list Z) :
  d <= b -> Forall (fun x => x <= b) xs -> fold_right Z.max d xs <= b.
Proof. intros Hd H. induction H; cbn; lia. Qed.

Lemma placeLines_input ow pad gap (ls : list Worker.TextLine) (y : Z) :
  map Worker.input (Worker.placeLines ow pad gap ls y) = map Worker.TextLayer ls.
Proof.
  revert y. induction ls as [| l ls IH]; intros y; [reflexivity |].
  cbn. rewrite IH. reflexivity.
Qed.

Lemma placeLines_aligned logo ow pad gap (ls : list Worker.TextLine) (y : Z) :
  0 <= pad ->
  Forall (fun l => Worker.width l + 2 * pad <= ow) ls ->
  Forall (fun c => pad <= Worker.left c ∧ Worker.left c + layerWidth logo c = ow - pad)
         (Worker.placeLines ow pad gap ls y).
Proof.
  intros Hpad H. revert y. induction H as [| l ls Hl _ IH]; intros y; [constructor |].
  cbn [Worker.placeLines]. constructor; [| apply IH].
  unfold layerWidth. cbn [Worker.input Worker.left]. lia.
Qed.

Lemma placeLines_stacked logo ow pad gap (ls : list Worker.TextLine) (y : Z) :
  ls <> [] ->
  stacked logo gap y
          (y + Worker.sumOf (map Worker.height ls) + (Z.of_nat (length ls) - 1) * gap)
          (Worker.placeLines ow pad gap ls y).
Proof.
  revert y. induction ls as [| l ls IH]; intros y Hne; [congruence |].
  destruct ls as [| l' ls].
  - cbn. unfold layerHeight, Worker.sumOf. cbn. lia.
  - specialize (IH (y + Worker.height l + gap) ltac:(discriminate)).
    cbn [Worker.placeLines stacked Worker.top] in *. split; [reflexivity |].
    unfold layerHeight at 1. cbn [Worker.input].
    replace (y + Worker.sumOf (map Worker.height (l :: l' :: ls))
             + (Z.of_nat (length (l :: l' :: ls)) - 1) * gap)
      with (y + Worker.height l + gap + Worker.sumOf (map Worker.height (l' :: ls))
            + (Z.of_nat (length (l' :: ls)) - 1) * gap).
    + exact IH.
    + cbn [map]. rewrite (sumOf_cons (Worker.height l)).
      change (length (l :: l' :: ls)) with (S (length (l' :: ls))).
      rewrite Nat2Z.inj_succ. lia.
Qed.

Lemma stacked_cons logo gap y bottom (c : Worker.Composite) (rest : list Worker.Composite) :
  rest <> [] -> Worker.top c = y ->
  stacked logo gap (y + layerHeight logo c + gap) bottom rest ->
  stacked logo gap y bottom (c :: rest).
Proof.
  intros Hne Ht Hs. destruct rest as [| c' rest]; [congruence |].
  split; [exact Ht | exact Hs].
Qed.

Section OverlayLayout.

Variable renderMeta : string -> Z -> option Z * option Z.
Variable existsSync : string -> bool.
Variable logoMetadata : string -> option (option Z * option Z).
Variable logoResized : string -> Z -> option (option Z * option Z).
Variable compositeCanvas : Z -> Z -> list Worker.Composite -> list Worker.Pixel.

Let build := Worker.buildWatermarkOverlay renderMeta existsSync logoMetadata logoResized
                                          compositeCanvas.
Let layout := Worker.overlayLayout renderMeta existsSync logoMetadata logoResized.

Lemma wrap_lines_nonEmpty (fullText : string) (fontSize maxLineWidth : Z) :
  Worker.lines (Worker.wrapTextToWidth renderMeta fullText fontSize maxLineWidth) <> [].
Proof.
  destruct (words fullText) as [| w ws] eqn:Ew.
  - unfold Worker.wrapTextToWidth. rewrite Ew. discriminate.
  - destruct (wrapTextToWidth_groups renderMeta fontSize maxLineWidth fullText)
      as (groups & -> & Hc & _); [rewrite Ew; discriminate |].
    destruct groups; [rewrite Ew in Hc; discriminate Hc | discriminate].
Qed.

(** X2: the overlay that [buildWatermarkOverlay] returns is the canvas of
    its layout with the layers composited and faded.  The layers are the
    logo, when one was loaded, and then the lines of the text, of which
    there is at least one.  Every layer is right-aligned: it ends [padding]
    before the right edge of the canvas and begins at least [padding] after
    the left edge.  The layers are stacked: the first begins [padding] below
    the top, each next one [lineGap] below the end of the one before, and the
    last ends [padding] above the bottom of the canvas. *)
Theorem overlay_layers_aligned_and_stacked bw bh dateText eventText logoPath
        marginEm pct opacity :
  let L := layout bw bh dateText eventText logoPath marginEm pct in
  let pad := Worker.padding (Worker.eventFont bw bh) in
  let gap := Worker.lineGap (Worker.eventFont bw bh) in
  build bw bh dateText eventText logoPath marginEm pct opacity
  = Some {| Worker.buffer :=
              Worker.fade (compositeCanvas (Worker.overlayWidth L) (Worker.overlayHeight L)
                                           (Worker.composites L)) opacity;
            Worker.ovWidth := Worker.overlayWidth L;
            Worker.ovHeight := Worker.overlayHeight L;
            Worker.fontSize := Worker.eventFont bw bh;
            Worker.ovMarginPx := Worker.marginPx marginEm (Worker.eventFont bw bh) |}
  ∧ map Worker.input (Worker.composites L)
    = match Worker.logo L with Some _ => [Worker.LogoLayer] | None => [] end
      ++ map Worker.TextLayer (Worker.textLines L)
  ∧ Worker.textLines L <> []
  ∧ Forall (fun c => pad <= Worker.left c
                     ∧ Worker.left c + layerWidth (Worker.logo L) c
                       = Worker.overlayWidth L - pad)
           (Worker.composites L)
  ∧ stacked (Worker.logo L) gap pad (Worker.overlayHeight L - pad) (Worker.composites L).
Proof.
  intros L pad gap.
  split; [reflexivity |].
  subst L. unfold layout, Worker.overlayLayout. cbv zeta.
  cbn [Worker.composites Worker.logo Worker.textLines Worker.overlayWidth
       Worker.overlayHeight].
  fold pad gap.
  set (logo := Worker.loadLogo existsSync logoMetadata logoResized logoPath
                               (Worker.eventFont bw bh)).
  set (ls := Worker.lines (Worker.wrapTextToWidth renderMeta _ _ _)).
  assert (Hls : ls <> []) by apply wrap_lines_nonEmpty.
  assert (Hpad : 2 <= pad) by (unfold pad, Worker.padding; lia).
  destruct (fold_right_max_ge 1 (map Worker.width ls)) as [_ Hw].
  set (tbw := fold_right Z.max 1 (map Worker.width ls)) in *.
  assert (Hlen : (if 1 <? Z.of_nat (length ls) then (Z.of_nat (length ls) - 1) * gap else 0)
                 = (Z.of_nat (length ls) - 1) * gap).
  { destruct (Z.ltb_spec 1 (Z.of_nat (length ls))); [reflexivity |].
    assert (E : length ls = 1%nat) by (destruct ls; [congruence | cbn [length] in *; lia]).
    rewrite E. reflexivity. }
  rewrite Hlen.
  split.
  { rewrite map_app, placeLines_input. destruct logo as [[w h] |]; reflexivity. }
  split; [exact Hls |].
  split.
  - apply Forall_app. split.
    + destruct logo as [[w h] |]; [| constructor].
      constructor; [| constructor]. unfold layerWidth. cbn [Worker.input Worker.left]. lia.
    + apply placeLines_aligned; [lia |].
      apply Forall_forall. intros l Hl.
      assert (Worker.width l <= tbw); [| lia].
      rewrite Forall_forall in Hw. apply Hw, list_elem_of_fmap. exists l. auto.
  - destruct logo as [[w h] |].
    + pose proof (placeLines_stacked (Some (w, h))
                    (Z.max w tbw + 2 * pad) pad gap ls (pad + (h + gap)) Hls) as Hs.
      cbn [app]. apply stacked_cons.
      * destruct ls; [congruence | discriminate].
      * reflexivity.
      * unfold layerHeight at 1. cbn [Worker.input].
        replace (pad + h + gap) with (pad + (h + gap)) by lia.
        replace (pad + (h + gap)
                 + (Worker.sumOf (map Worker.height ls) + (Z.of_nat (length ls) - 1) * gap)
                 + pad - pad)
          with (pad + (h + gap) + Worker.sumOf (map Worker.height ls)
                + (Z.of_nat (length ls) - 1) * gap) by lia.
        exact Hs.
    + pose proof (placeLines_stacked None (Z.max 0 tbw + 2 * pad) pad gap ls (pad + 0) Hls)
        as Hs.
      cbn [app]. rewrite (Z.add_0_r pad) in Hs |- *.
      replace (pad + (Worker.sumOf (map Worker.height ls)
                      + (Z.of_nat (length ls) - 1) * gap) + pad - pad)
        with (pad + Worker.sumOf (map Worker.height ls)
              + (Z.of_nat (length ls) - 1) * gap) by lia.
      exact Hs.
Qed.

End OverlayLayout.

(** ** The RAW helper *)

Section Raster.

Variable tmpdir : string.
Variable runExec : string -> list string -> gset string -> bool * gset string.

#[local] Abbreviation tryAttempts := (Server.tryAttempts runExec).
#[local] Abbreviation ensureRasterInput := (Server.ensureRasterInput tmpdir runExec).

(** The loop over the tools answers with [outTif] only when that file
    exists, and gives up with the base name of the input. *)
Lemma tryAttempts_result (attempts : list Server.Attempt) (inputPath base outTif : string) :
  ∀ fs r fs',
    tryAttempts attempts inputPath base outTif fs = (r, fs') ->
    match r with
    | Server.RasterPath q => q = outTif ∧ q ∈ fs'
    | Server.ConversionFailed f => f = basename inputPath EmptyString
    end.
Proof.
  induction attempts as [| a attempts IH]; intros fs r fs' H; cbn [Server.tryAttempts] in H.
  - injection H as <- <-. reflexivity.
  - destruct (runExec (Server.cmd a) (Server.args a) fs) as [ok fs1].
    destruct ok; [| exact (IH _ _ _ H)].
    match type of H with
    | (if bool_decide (outTif ∈ ?fs2) then _ else _) = _ =>
        set (fs2' := fs2) in *; destruct (bool_decide_reflect (outTif ∈ fs2'))
    end.
    + injection H as <- <-. split; [reflexivity | assumption].
    + exact (IH _ _ _ H).
Qed.

(** When every tool fails, so does the conversion. *)
Lemma tryAttempts_all_fail (attempts : list Server.Attempt) (inputPath base outTif : string) :
  (∀ cmd args fs, fst (runExec cmd args fs) = false) ->
  ∀ fs, fst (tryAttempts attempts inputPath base outTif fs)
        = Server.ConversionFailed (basename inputPath EmptyString).
Proof.
  intros Hfail. induction attempts as [| a attempts IH]; intros fs; [reflexivity |].
  cbn [Server.tryAttempts]. specialize (Hfail (Server.cmd a) (Server.args a) fs).
  destruct (runExec (Server.cmd a) (Server.args a) fs) as [ok fs1]. cbn [fst] in Hfail.
  subst ok. apply IH.
Qed.

(** X3: [ensureRasterInput] hands back the input path, runs no tool and
    leaves the files as they are unless the extension of the input, in
    lower case, is one of the RAW extensions.  For a RAW input, every path
    it returns is <tmpdir>/raw2tiff/<base>.tif and names a file that exists
    when it returns, so a tool that exits with 0 without leaving that file
    is passed over; when it gives up, the error names the input file; and it
    gives up when every tool fails. *)
Theorem ensureRasterInput_result (inputPath : string) (fs : gset string) :
  let ext := toLowerCase (extname inputPath) in
  let outTif := pathJoin (pathJoin tmpdir "raw2tiff") (basename inputPath ext +:+ ".tif") in
  (includes Server.RAW_EXTS ext = false ->
   ensureRasterInput inputPath fs = (Server.RasterPath inputPath, fs))
  ∧ (includes Server.RAW_EXTS ext = true ->
     ∀ r fs',
       ensureRasterInput inputPath fs = (r, fs') ->
       match r with
       | Server.RasterPath q => q = outTif ∧ q ∈ fs'
       | Server.ConversionFailed f => f = basename inputPath EmptyString
       end)
  ∧ (includes Server.RAW_EXTS ext = true ->
     (∀ cmd args fs1, fst (runExec cmd args fs1) = false) ->
     fst (ensureRasterInput inputPath fs)
     = Server.ConversionFailed (basename inputPath EmptyString)).
Proof.
  intros ext outTif.
  assert (Hdisjoint : includes Server.RAW_EXTS ext = true ->
                      includes Server.RASTER_OK ext = false).
  { unfold includes. intros H. apply existsb_exists in H as (e & Hin & He).
    apply String.eqb_eq in He. rewrite He.
    repeat (destruct Hin as [<- | Hin]; [reflexivity |]). destruct Hin. }
  split; [| split].
  - intros Hraw. unfold Server.ensureRasterInput. fold ext. rewrite Hraw.
    destruct (includes Server.RASTER_OK ext); reflexivity.
  - intros Hraw r fs' H. unfold Server.ensureRasterInput in H. fold ext in H.
    rewrite Hraw, (Hdisjoint Hraw) in H. cbn [negb] in H.
    exact (tryAttempts_result _ _ _ _ _ _ _ H).
  - intros Hraw Hfail. unfold Server.ensureRasterInput. fold ext.
    rewrite Hraw, (Hdisjoint Hraw). cbn [negb].
    apply tryAttempts_all_fail, Hfail.
Qed.

End Raster.

(** ** The promise of runWorker *)

Lemma runWorker_app (events more : list Server.WorkerEvent) (s : Server.Settlement) :
  Server.runWorker events = Some s -> Server.runWorker (events ++ more) = Some s.
Proof.
  induction events as [| e events IH]; [discriminate |]. cbn [Server.runWorker app].
  destruct (Server.listener e); [intros H; exact H | exact IH].
Qed.

Lemma runWorker_pending (events : list Server.WorkerEvent) :
  Server.runWorker events = None ↔ Forall (fun e => Server.listener e = None) events.
Proof.
  induction events as [| e events IH]; cbn [Server.runWorker].
  - split; [constructor | reflexivity].
  - destruct (Server.listener e) eqn:E.
    + split; [discriminate |]. intros H. inversion H; congruence.
    + rewrite IH. split; [intros H; constructor; assumption | intros H; inversion H; assumption].
Qed.

(** X4: the promise of [runWorker] is settled by the first event that
    settles it: what follows changes nothing.  A worker that runs its body
    to the end fulfils the promise when it wrote the output and rejects it
    with the message of the exception otherwise; an [error] event rejects
    it; an exit with a code other than 0 rejects it with that code.  The
    promise stays pending exactly when no event settles it: after an exit
    with code 0 that no message preceded it is never settled. *)
Theorem runWorker_first_event_settles :
  (∀ ending,
     Server.runWorker (Server.workerEvents ending)
     = Some (match ending with
             | Worker.Wrote => Server.Resolve
             | Worker.Threw message => Server.Reject message
             end))
  ∧ (∀ events more s,
       Server.runWorker events = Some s -> Server.runWorker (events ++ more) = Some s)
  ∧ (∀ err more, Server.runWorker (Server.OnError err :: more) = Some (Server.Reject err))
  ∧ (∀ code more,
       code <> 0 ->
       Server.runWorker (Server.OnExit code :: more)
       = Some (Server.Reject ("Worker exited with code " +:+ pretty code)))
  ∧ (∀ events,
       Server.runWorker events = None
       ↔ Forall (fun e => match e with
                          | Server.OnMessage type _ => type <> "done" ∧ type <> "error"
                          | Server.OnError _ => False
                          | Server.OnExit code => code = 0
                          end) events).
Proof.
  split; [intros [| message]; reflexivity |].
  split; [exact runWorker_app |].
  split; [reflexivity |].
  split.
  - intros code more Hcode. cbn [Server.runWorker Server.listener].
    destruct (Z.eqb_spec code 0); [contradiction | reflexivity].
  - intros events. rewrite runWorker_pending. apply Forall_iff. intros [type err | err | code];
      cbn [Server.listener].
    + destruct (String.eqb_spec type "done"); [split; [discriminate | intros [H _]; contradiction] |].
      destruct (String.eqb_spec type "error"); [split; [discriminate | intros [_ H]; contradiction] |].
      split; [intros _; split; assumption | reflexivity].
    + split; [discriminate | contradiction].
    + destruct (Z.eqb_spec code 0); [split; [intros _; assumption | reflexivity] |].
      split; [discriminate | contradiction].
Qed.

(** A worker killed with code 1 after its message: the message decides.
    The same exit without a message rejects. *)
Lemma runWorker_first_event_settles_witness :
  Server.runWorker ([Server.OnMessage "done" EmptyString] ++ [Server.OnExit 1])
  = Some Server.Resolve
  ∧ Server.runWorker (Server.OnExit 1 :: [])
    = Some (Server.Reject "Worker exited with code 1")
  ∧ Server.runWorker [Server.OnExit 0] = None.
Proof.
  destruct runWorker_first_event_settles as (_ & Happ & _ & Hexit & Hpending).
  split; [apply Happ; reflexivity |].
  split; [exact (Hexit 1 [] ltac:(discriminate)) |].
  apply Hpending. repeat constructor.
Defined.

(** ** The text of the watermark *)

Lemma allSpace_app (a b : string) : allSpace (a +:+ b) = allSpace a && allSpace b.
Proof.
  induction a as [| c a IH]; [reflexivity |].
  rewrite append_cons. cbn [allSpace]. rewrite IH, andb_assoc. reflexivity.
Qed.

Lemma trimStart_solid (s : string) : startsSolid (trimStart s) = true.
Proof.
  induction s as [| c s IH]; [reflexivity |]. cbn [trimStart].
  destruct (isSpace c) eqn:E; [exact IH |]. cbn. rewrite E. reflexivity.
Qed.

Lemma trimStart_of_solid (s : string) : startsSolid s = true -> trimStart s = s.
Proof.
  destruct s as [| c s]; [reflexivity |]. cbn. intros H.
  apply negb_true_iff in H. rewrite H. reflexivity.
Qed.

Lemma trimEnd_solid (s : string) : startsSolid s = true -> startsSolid (trimEnd s) = true.
Proof.
  destruct s as [| c s]; [reflexivity |]. cbn [startsSolid trimEnd allSpace]. intros H.
  apply negb_true_iff in H. rewrite H. cbn. rewrite H. reflexivity.
Qed.

Lemma trimEnd_not_allSpace (s : string) : allSpace s = false -> allSpace (trimEnd s) = false.
Proof.
  induction s as [| c s IH]; [discriminate |]. intros H. cbn [trimEnd]. rewrite H.
  cbn [allSpace] in *. destruct (isSpace c); [| reflexivity]. cbn [andb] in *. exact (IH H).
Qed.

Lemma trimEnd_idem (s : string) : trimEnd (trimEnd s) = trimEnd s.
Proof.
  induction s as [| c s IH]; [reflexivity |]. cbn [trimEnd].
  destruct (allSpace (String c s)) eqn:E; [reflexivity |].
  cbn [trimEnd]. rewrite IH.
  assert (E' : allSpace (String c (trimEnd s)) = false).
  { cbn [allSpace] in *. destruct (isSpace c); [| reflexivity]. cbn [andb] in *.
    apply trimEnd_not_allSpace, E. }
  rewrite E'. reflexivity.
Qed.

Lemma trimEnd_allSpace (s : string) : allSpace s = true -> trimEnd s = EmptyString.
Proof. destruct s as [| c s]; [reflexivity |]. intros H. cbn [trimEnd]. rewrite H. reflexivity. Qed.

Lemma trimEnd_app_space (a b : string) : allSpace b = true -> trimEnd (a +:+ b) = trimEnd a.
Proof.
  intros Hb. induction a as [| c a IH]; [apply trimEnd_allSpace, Hb |].
  rewrite append_cons. cbn [trimEnd]. rewrite IH.
  change (allSpace (String c (a +:+ b))) with (isSpace c && allSpace (a +:+ b)).
  rewrite allSpace_app, Hb, andb_true_r. reflexivity.
Qed.

Lemma trimEnd_app_solid (a b : string) :
  allSpace b = false -> trimEnd (a +:+ b) = a +:+ trimEnd b.
Proof.
  intros Hb. induction a as [| c a IH]; [reflexivity |].
  rewrite !append_cons. cbn [trimEnd]. rewrite IH.
  change (allSpace (String c (a +:+ b))) with (isSpace c && allSpace (a +:+ b)).
  rewrite allSpace_app, Hb, andb_false_r, andb_false_r. reflexivity.
Qed.

Lemma trim_solid (s : string) : startsSolid (trim s) = true.
Proof. apply trimEnd_solid, trimStart_solid. Qed.

Lemma trim_idem (s : string) : trim (trim s) = trim s.
Proof.
  unfold trim at 1. rewrite trimStart_of_solid by apply trim_solid.
  unfold trim. apply trimEnd_idem.
Qed.

(** X5: the text of the watermark is the event name followed by the date,
    each without the white space around it, with one space between them;
    when one of the two is blank, the text is the other one alone, without
    that space; it is empty when both are blank.  The text has no white
    space around it. *)
Theorem combinedText_cases (eventText dateText : string) :
  Worker.combinedText eventText dateText
  = (if negb (nonEmpty (trim eventText)) then trim dateText
     else if negb (nonEmpty (trim dateText)) then trim eventText
     else trim eventText +:+ " " +:+ trim dateText)
  ∧ trim (Worker.combinedText eventText dateText) = Worker.combinedText eventText dateText.
Proof.
  split; [| apply trim_idem].
  unfold Worker.combinedText.
  pose proof (trim_solid eventText) as He. pose proof (trim_solid dateText) as Hd.
  pose proof (trim_idem eventText) as Ie. pose proof (trim_idem dateText) as Id.
  set (x := trim eventText) in *. set (y := trim dateText) in *.
  assert (Ex : trimEnd x = x)
    by (unfold trim in Ie; rewrite trimStart_of_solid in Ie by exact He; exact Ie).
  assert (Ey : trimEnd y = y)
    by (unfold trim in Id; rewrite trimStart_of_solid in Id by exact Hd; exact Id).
  destruct x as [| cx x]; cbn [nonEmpty negb].
  - rewrite append_nil_l. exact Id.
  - assert (Hx : isSpace cx = false) by (apply negb_true_iff, He).
    unfold trim.
    rewrite trimStart_of_solid by (rewrite append_cons; cbn [startsSolid]; rewrite Hx; reflexivity).
    destruct y as [| cy y]; cbn [nonEmpty negb].
    + rewrite trimEnd_app_space by reflexivity. exact Ex.
    + assert (Hy : isSpace cy = false) by (apply negb_true_iff, Hd).
      assert (Hsolid : allSpace (String cy y) = false)
        by (cbn [allSpace]; rewrite Hy; reflexivity).
      rewrite trimEnd_app_solid
        by (rewrite append_cons, append_nil_l; cbn [allSpace]; rewrite Hy;
            destruct (isSpace " "); reflexivity).
      rewrite trimEnd_app_solid by exact Hsolid.
      rewrite Ey. reflexivity.
Qed.

(** ** What the worker writes for an accepted upload *)

Lemma plainName_app (a b : string) : plainName (a +:+ b) = plainName a && plainName b.
Proof.
  induction a as [| c a IH]; [reflexivity |].
  rewrite append_cons. cbn [plainName]. rewrite IH, andb_assoc. reflexivity.
Qed.

Lemma splitLastSlash_plain (n : string) : plainName n = true -> splitLastSlash n = None.
Proof.
  induction n as [| c n IH]; [reflexivity |]. cbn [plainName splitLastSlash].
  intros [Hc Hn]%andb_true_iff. rewrite (IH Hn).
  destruct (isSlash c); [discriminate Hc | reflexivity].
Qed.

Lemma splitLastSlash_join (dir n : string) :
  plainName n = true -> splitLastSlash (pathJoin dir n) = Some (dir, n).
Proof.
  intros Hn. unfold pathJoin. induction dir as [| c dir IH].
  - rewrite append_nil_l, append_cons, append_nil_l. cbn [splitLastSlash].
    rewrite (splitLastSlash_plain n Hn). reflexivity.
  - rewrite append_cons. cbn [splitLastSlash]. rewrite IH. reflexivity.
Qed.

Lemma lastComponent_pathJoin (dir n : string) :
  plainName n = true -> lastComponent (pathJoin dir n) = n.
Proof. intros Hn. unfold lastComponent. rewrite (splitLastSlash_join dir n Hn). reflexivity. Qed.

(** The split at the last dot gives the string back. *)
Lemma splitLastDot_eq (s pre tail : string) :
  splitLastDot s = Some (pre, tail) -> s = pre +:+ String "." tail.
Proof.
  revert pre. induction s as [| c s IH]; intros pre H; [discriminate H |].
  cbn [splitLastDot] in H. destruct (splitLastDot s) as [[pre' tail'] |].
  - injection H as <- <-. rewrite append_cons, <- (IH pre' eq_refl). reflexivity.
  - destruct (isDot c) eqn:Ec; [| discriminate H]. injection H as <- <-.
    apply Ascii.eqb_eq in Ec. subst c. reflexivity.
Qed.

Lemma splitLastDot_dots (s pre tail : string) :
  splitLastDot s = Some (pre, tail) -> nonEmpty tail = true -> String.eqb s ".." = false.
Proof.
  intros H Ht. destruct (String.eqb_spec s ".."); [| reflexivity].
  subst s. injection H as <- <-. discriminate Ht.
Qed.

(** An accepted upload: a non-empty stem, a dot, and one of the seven
    extensions in some case. *)
Lemma fileFilter_split (n : string) :
  plainName n = true -> Server.fileFilter n = true ->
  ∃ tail,
    splitLastDot n = Some (stem n, tail)
    ∧ nonEmpty (stem n) = true
    ∧ extname n = String "." tail
    ∧ toLowerCase tail ∈ ["jpg"; "jpeg"; "png"; "webp"; "dng"; "cr2"; "nef"].
Proof.
  intros Hp Hf. unfold Server.fileFilter, extname, stem in *.
  rewrite (plainName_lastComponent n Hp) in *.
  destruct (splitLastDot n) as [[pre tail] |]; [| discriminate Hf].
  exists tail. split; [reflexivity |].
  destruct pre as [| c pre]; [discriminate Hf |].
  cbn [nonEmpty negb orb] in *.
  destruct (String.eqb n ".."); [discriminate Hf |].
  split; [reflexivity |]. split; [reflexivity |].
  unfold includes in Hf. apply existsb_exists in Hf as (e & Hin & He).
  apply String.eqb_eq in He.
  change (String "." (toLowerCase tail) = e) in He.
  repeat (destruct Hin as [<- | Hin];
          [injection He as ->; repeat (first [left | right; left | right]); fail |]).
  destruct Hin.
Qed.

Lemma splitLastDot_none (s : string) : splitLastDot s = None -> noDot s = true.
Proof.
  induction s as [| c s IH]; [reflexivity |]. cbn [splitLastDot noDot].
  destruct (splitLastDot s) as [[pre tail] |]; [discriminate |].
  destruct (isDot c); [discriminate |]. intros _. cbn. apply IH. reflexivity.
Qed.

Lemma splitLastDot_noDot (s pre tail : string) :
  splitLastDot s = Some (pre, tail) -> noDot tail = true.
Proof.
  revert pre. induction s as [| c s IH]; intros pre H; [discriminate H |].
  cbn [splitLastDot] in H. destruct (splitLastDot s) as [[pre' tail'] |] eqn:E.
  - injection H as <- <-. exact (IH pre' eq_refl).
  - destruct (isDot c); [| discriminate H]. injection H as <- <-.
    apply splitLastDot_none, E.
Qed.

(** X17: multer's filter accepts a plain file name exactly when the name is
    a non-empty stem, a dot, and after that dot one of jpg, jpeg, png, webp,
    dng, cr2 and nef, in any mix of upper and lower case.  A name without a
    dot, and a name whose only dot is its first character, such as .jpg, are
    refused. *)
Theorem fileFilter_accepts (n : string) :
  plainName n = true ->
  (Server.fileFilter n = true
   ↔ ∃ pre tail,
       n = pre +:+ String "." tail
       ∧ nonEmpty pre = true
       ∧ noDot tail = true
       ∧ toLowerCase tail ∈ ["jpg"; "jpeg"; "png"; "webp"; "dng"; "cr2"; "nef"]).
Proof.
  intros Hp. split.
  - intros Hf. destruct (fileFilter_split n Hp Hf) as (tail & Hs & Hpre & _ & Ht).
    exists (stem n), tail. split; [apply splitLastDot_eq, Hs |].
    split; [exact Hpre |]. split; [eapply splitLastDot_noDot; exact Hs | exact Ht].
  - intros (pre & tail & -> & Hpre & Hnd & Ht).
    pose proof (splitLastDot_ext pre tail Hnd) as Hs.
    assert (Htail : nonEmpty tail = true)
      by (destruct tail; [| reflexivity]; exfalso;
          repeat (apply elem_of_cons in Ht as [Ht | Ht]; [discriminate Ht |]); inversion Ht).
    unfold Server.fileFilter, extname. cbv zeta.
    rewrite (plainName_lastComponent _ Hp), Hs, Hpre, (splitLastDot_dots _ _ _ Hs Htail).
    cbn [negb orb].
    change (toLowerCase ("." +:+ tail)) with (String "." (toLowerCase tail)).
    repeat (apply elem_of_cons in Ht as [Ht | Ht]; [rewrite Ht; reflexivity |]).
    inversion Ht.
Qed.

(** The path written for an output name that has an extension the worker
    keeps. *)
Lemma written_of_split (dir name pre tail : string) :
  plainName name = true ->
  splitLastDot name = Some (pre, tail) ->
  nonEmpty pre = true ->
  nonEmpty tail = true ->
  includes [".jpg"; ".jpeg"; ".png"; ".webp"] (String "." (toLowerCase tail)) = true ->
  Worker.outExtOf (pathJoin dir name) = String "." (toLowerCase tail)
  ∧ Worker.outPathFinalOf (pathJoin dir name)
    = pathJoin dir (pre +:+ String "." (toLowerCase tail)).
Proof.
  intros Hp Hs Hpre Ht Hin.
  assert (Eext : Worker.outExtOf (pathJoin dir name) = String "." (toLowerCase tail)).
  { unfold Worker.outExtOf, extname. cbv zeta.
    rewrite (lastComponent_pathJoin dir name Hp), Hs, Hpre.
    rewrite (splitLastDot_dots name pre tail Hs Ht). cbn [negb orb].
    change (toLowerCase ("." +:+ tail)) with (String "." (toLowerCase tail)).
    rewrite Hin. reflexivity. }
  split; [exact Eext |].
  unfold Worker.outPathFinalOf, replaceLastExt. rewrite Eext.
  unfold pathJoin at 1. rewrite <- string_app_assoc.
  rewrite (splitLastDot_prefix _ name pre tail Hs), Ht.
  unfold pathJoin. rewrite !string_app_assoc. reflexivity.
Qed.

Section WorkerOutput.

Variable renderMeta : string -> Z -> option Z * option Z.
Variable existsSync : string -> bool.
Variable logoMetadata : string -> option (option Z * option Z).
Variable logoResized : string -> Z -> option (option Z * option Z).
Variable compositeCanvas : Z -> Z -> list Worker.Composite -> list Worker.Pixel.
Variable imageMetadata : string -> option Z * option Z.
Variables ROOT_UPLOADS ROOT_STORAGE __dirname : string.

Let main := Worker.main renderMeta existsSync logoMetadata logoResized compositeCanvas
                        imageMetadata.
Let payloadOf := Server.payloadOf ROOT_UPLOADS ROOT_STORAGE __dirname.

(** X6: for an upload that multer accepted, the worker decodes the upload
    itself and writes, into the output directory of the batch, the stem of
    the upload with its extension in lower case (.jpg for .dng, .cr2 and
    .nef); that extension is one of .jpg, .jpeg, .png and .webp, and the
    encoder is the one of the extension: PNG at compression level 9 for
    .png, WebP at quality 90 for .webp, JPEG at quality 90 with 4:4:4
    chroma for .jpg and .jpeg. *)
Theorem accepted_upload_written_and_encoded (b : Server.Batch) (n : string) :
  plainName n = true ->
  Server.fileFilter n = true ->
  let run := main (payloadOf b n) in
  Worker.decoded run = pathJoin (Server.uploadsDir ROOT_UPLOADS b) n
  ∧ Worker.outPathFinal run
    = pathJoin (Server.outDir ROOT_STORAGE b) (stem n +:+ writtenExt n)
  ∧ writtenExt n ∈ [".jpg"; ".jpeg"; ".png"; ".webp"]
  ∧ Worker.encoder run
    = (if String.eqb (writtenExt n) ".png" then Worker.Png 9
       else if String.eqb (writtenExt n) ".webp" then Worker.Webp 90
       else Worker.Jpeg 90 "4:4:4").
Proof.
  intros Hp Hf run. split; [reflexivity |].
  destruct (fileFilter_split n Hp Hf) as (tail & Hs & Hpre & Eext & Ht).
  assert (Hstem : plainName (stem n) = true).
  { pose proof (splitLastDot_eq n _ _ Hs) as E. rewrite E, plainName_app in Hp.
    apply andb_true_iff in Hp as [H _]. exact H. }
  assert (Hjpg : plainName (stem n +:+ ".jpg") = true)
    by (rewrite plainName_app, Hstem; reflexivity).
  assert (Htail : nonEmpty tail = true)
    by (destruct tail; [| reflexivity]; exfalso;
        repeat (apply elem_of_cons in Ht as [Ht | Ht]; [discriminate Ht |]); inversion Ht).
  subst run. unfold main, Worker.main. cbn [Worker.outPathFinal Worker.encoder].
  unfold payloadOf, Server.payloadOf. cbn [Worker.outputPath].
  unfold writtenExt, replaceRawExt. rewrite Eext, Hs. cbv zeta.
  change (toLowerCase (String "." tail)) with (String "." (toLowerCase tail)).
  set (dir := Server.outDir ROOT_STORAGE b).
  repeat (apply elem_of_cons in Ht as [Ht | Ht]); [| | | | | | | inversion Ht];
    rewrite Ht; cbn [String.eqb Ascii.eqb Bool.eqb orb includes existsb].
  1-4: destruct (written_of_split dir n (stem n) tail Hp Hs Hpre Htail) as [E1 E2];
    [rewrite Ht; reflexivity |];
    rewrite E1, E2, Ht;
    (split; [reflexivity |]); (split; [set_solver | reflexivity]).
  all: destruct (written_of_split dir (stem n +:+ ".jpg") (stem n) "jpg" Hjpg
                   (splitLastDot_jpg (stem n)) Hpre eq_refl eq_refl) as [E1 E2];
    rewrite E1, E2;
    (split; [reflexivity |]); (split; [set_solver | reflexivity]).
Qed.


End WorkerOutput.

(** ** Wrapping and the width of the overlay *)


Lemma fold_left_max_spec (xs : list Z) (a : Z) :
  a <= fold_left Z.max xs a
  ∧ Forall (fun x => x <= fold_left Z.max xs a) xs
  ∧ (fold_left Z.max xs a = a ∨ fold_left Z.max xs a ∈ xs).
Proof.
  revert a. induction xs as [| x xs IH]; intros a; cbn [fold_left].
  - split; [lia |]. split; [constructor | left; reflexivity].
  - destruct (IH (Z.max a x)) as (H1 & H2 & H3). split; [lia |]. split.
    + constructor; [lia | exact H2].
    + destruct H3 as [H3 | H3]; [| right; right; exact H3].
      rewrite H3. destruct (Z.max_spec a x) as [[_ ->] | [_ ->]]; [right; left | left; reflexivity].
Qed.

Lemma length_concat_groups {A} (groups : list (list A)) :
  Forall (fun g => g <> []) groups -> (length groups <= length (concat groups))%nat.
Proof.
  induction 1 as [| g groups Hg _ IH]; [reflexivity |].
  cbn. rewrite length_app. destruct g; [congruence |]. cbn. lia.
Qed.

Lemma padding_range (f : Z) : 18 <= f <= 96 -> 2 <= Worker.padding f <= 34.
Proof.
  intros Hf. split; [unfold Worker.padding; lia |].
  assert (H : forallb (fun n => Worker.padding (Z.of_nat n) <=? 34) (seq 18 79) = true)
    by (vm_compute; reflexivity).
  rewrite forallb_forall in H. specialize (H (Z.to_nat f)).
  rewrite Z2Nat.id in H by lia. apply Z.leb_le, H, in_seq. lia.
Qed.

Section WrapMore.

Variable renderMeta : string -> Z -> option Z * option Z.
Variables fontSize maxLineWidth : Z.


#[local] Abbreviation lineOf := (lineOf renderMeta fontSize).



(** X9: the result of wrapping always has at least one line and at most
    one line per word; its total width is a number, the width of its widest
    line, and its total height is the sum of the heights of its lines. *)
Theorem wrap_totals (fullText : string) :
  let r := Worker.wrapTextToWidth renderMeta fullText fontSize maxLineWidth in
  Worker.lines r <> []
  ∧ (length (Worker.lines r) <= Nat.max 1 (length (words fullText)))%nat
  ∧ (∃ m, Worker.totalWidth r = Some m
          ∧ m ∈ map Worker.width (Worker.lines r)
          ∧ Forall (fun l => Worker.width l <= m) (Worker.lines r))
  ∧ Worker.totalHeight r = foldr Z.add 0 (map Worker.height (Worker.lines r)).
Proof.
  intros r.
  assert (Hmax : ∀ ls : list Worker.TextLine,
             ls <> [] ->
             ∃ m, Worker.maxOf (map Worker.width ls) = Some m
                  ∧ m ∈ map Worker.width ls ∧ Forall (fun l => Worker.width l <= m) ls).
  { intros [| l ls] Hls; [congruence |]. cbn [map Worker.maxOf].
    destruct (fold_left_max_spec (map Worker.width ls) (Worker.width l)) as (H1 & H2 & H3).
    eexists. split; [reflexivity |]. split.
    - destruct H3 as [-> | H3]; [left | right; exact H3].
    - constructor; [exact H1 |]. rewrite Forall_fmap in H2. exact H2. }
  assert (Hsum : ∀ xs, Worker.sumOf xs = foldr Z.add 0 xs).
  { induction xs as [| x xs IH]; [reflexivity |]. rewrite sumOf_cons, IH. reflexivity. }
  destruct (words fullText) as [| w0 ws0] eqn:Ew.
  - subst r. unfold Worker.wrapTextToWidth. rewrite Ew. cbn [Worker.lines Worker.totalWidth
      Worker.totalHeight length map foldr].
    split; [discriminate |]. split; [cbn; lia |]. split; [| lia].
    eexists. split; [reflexivity |]. split; [left |].
    constructor; [lia | constructor].
  - destruct (wrapTextToWidth_groups renderMeta fontSize maxLineWidth fullText)
      as (groups & El & Hc & Hg); [rewrite Ew; discriminate |].
    assert (Hls : Worker.lines r <> []).
    { subst r. rewrite El. destruct groups; [rewrite Ew in Hc; discriminate Hc | discriminate]. }
    assert (Er : Worker.totalWidth r = Worker.maxOf (map Worker.width (Worker.lines r))
                 ∧ Worker.totalHeight r = Worker.sumOf (map Worker.height (Worker.lines r))).
    { subst r. unfold Worker.wrapTextToWidth. rewrite Ew.
      destruct (Worker.wrapLoop _ _ _ _ _ _) as [lines current]. split; reflexivity. }
    destruct Er as [Ew' Eh].
    split; [exact Hls |]. split.
    { subst r. rewrite El, length_map, <- Ew, <- Hc.
      etransitivity; [apply length_concat_groups | lia].
      eapply Forall_impl; [exact Hg |]. intros g [H _]. exact H. }
    split; [rewrite Ew'; apply Hmax, Hls |].
    rewrite Eh. apply Hsum.
Qed.

End WrapMore.

Section OverlayWidth.

Variable renderMeta : string -> Z -> option Z * option Z.
Variable existsSync : string -> bool.
Variable logoMetadata : string -> option (option Z * option Z).
Variable logoResized : string -> Z -> option (option Z * option Z).

Let layout := Worker.overlayLayout renderMeta existsSync logoMetadata logoResized.

(** X10: when the watermark text has words, each word rendered alone fits
    the wrap width, and the logo (if one is loaded) is not wider than the
    wrap width, then every line of the overlay fits the wrap width and the
    overlay is not wider than the maximum text block width. *)
Theorem overlay_within_text_block_width bw bh dateText eventText logoPath marginEm pct :
  let f := Worker.eventFont bw bh in
  let maxW := Worker.maxTextBlockWidth bw pct (Worker.marginPx marginEm f) in
  let W := Worker.wrapWidth maxW (Worker.padding f) in
  let L := layout bw bh dateText eventText logoPath marginEm pct in
  words (Worker.combinedText eventText dateText) <> [] ->
  Forall (fun w => Worker.width (Worker.renderTrimmedLine renderMeta w f) <= W)
         (words (Worker.combinedText eventText dateText)) ->
  match Worker.logo L with Some (w, _) => w <= W | None => True end ->
  Forall (fun l => Worker.width l <= W) (Worker.textLines L)
  ∧ Worker.overlayWidth L <= maxW.
Proof.
  intros f maxW W L Hne Hwords Hlogo.
  assert (HW : 1 <= W).
  { pose proof (padding_range f (eventFont_bounds bw bh)) as Hp.
    unfold W, Worker.wrapWidth, maxW, Worker.maxTextBlockWidth. lia. }
  assert (Etext : (if nonEmpty (Worker.combinedText eventText dateText)
                   then Worker.combinedText eventText dateText else " ")
                  = Worker.combinedText eventText dateText).
  { destruct (Worker.combinedText eventText dateText); [| reflexivity].
    exfalso. apply Hne. reflexivity. }
  assert (Hlines : Forall (fun l => Worker.width l <= W) (Worker.textLines L)).
  { subst L. unfold layout, Worker.overlayLayout. cbv zeta. cbn [Worker.textLines].
    rewrite Etext. fold f. fold maxW. fold W.
    destruct (wrapTextToWidth_groups renderMeta f W (Worker.combinedText eventText dateText) Hne)
      as (groups & -> & Hc & Hg).
    apply Forall_fmap. rewrite <- Hc in Hwords.
    apply Forall_forall. intros g Hgin. cbn.
    rewrite Forall_forall in Hg. destruct (Hg g Hgin) as [Hgne Hfit].
    destruct g as [| a [| b g]]; [congruence | |].
    - rewrite Forall_forall in Hwords. apply Hwords.
      apply list_elem_of_In, in_concat. exists [a]. split; [| left; reflexivity].
      apply list_elem_of_In, Hgin.
    - apply Hfit. cbn. lia. }
  split; [exact Hlines |].
  subst L. unfold layout, Worker.overlayLayout in Hlines, Hlogo |- *. cbv zeta in *.
  cbn [Worker.textLines Worker.logo Worker.overlayWidth] in *.
  fold f in Hlines, Hlogo |- *. fold maxW in Hlines |- *. fold W in Hlines |- *.
  set (ls := Worker.lines _) in *.
  assert (Htbw : fold_right Z.max 1 (map Worker.width ls) <= W).
  { apply fold_right_max_le; [exact HW |]. apply Forall_fmap. exact Hlines. }
  unfold W, Worker.wrapWidth in *.
  destruct (Worker.loadLogo existsSync logoMetadata logoResized logoPath f) as [[w h] |]; lia.
Qed.

End OverlayWidth.

(** ** What a batch keeps *)

Lemma sameCore_trans (a b c : Server.Batch) : sameCore a b -> sameCore b c -> sameCore a c.
Proof.
  intros (A1 & A2 & A3 & A4 & A5 & A6) (B1 & B2 & B3 & B4 & B5 & B6).
  repeat split; congruence.
Qed.

Section Core.

Variables ROOT_UPLOADS ROOT_STORAGE __dirname : string.
Variable cpus : nat.
Variables id mode dateText eventText : string.
Variable fs0 : gset string.

#[local] Abbreviation step := (Server.step ROOT_UPLOADS ROOT_STORAGE __dirname cpus).
#[local] Abbreviation init :=
  (Server.mkState (created id mode dateText eventText) Server.Intake fs0 []).
#[local] Abbreviation kept := (uploadsInv id mode dateText eventText).

(** After the upload no step touches the id, the mode, the texts, the total
    or the names of the records. *)
Lemma step_sameCore (s s' : Server.State) :
  step s s' -> Server.phase s <> Server.Intake ->
  sameCore (Server.batch s) (Server.batch s') ∧ Server.phase s' <> Server.Intake.
Proof.
  intros Hstep Hph. destruct Hstep; state_fields; state_fields in Hph;
    try congruence; (split; [| discriminate]);
    first [apply sameCore_refl
          | apply sameCore_record, sameCore_refl
          | apply sameCore_rejected, sameCore_refl
          | apply sameCore_setStatus, sameCore_refl
          | apply sameCore_setError, sameCore_setStatus, sameCore_refl].
Qed.

Lemma run_sameCore (s s' : Server.State) :
  rtc step s s' -> Server.phase s <> Server.Intake ->
  sameCore (Server.batch s) (Server.batch s').
Proof.
  intros Hrun. induction Hrun as [| x y z Hxy _ IH]; intros Hph; [apply sameCore_refl |].
  destruct (step_sameCore x y Hxy Hph) as [Hc Hph'].
  eapply sameCore_trans; [exact Hc | exact (IH Hph')].
Qed.

Lemma uploadsInv_step (s s' : Server.State) : kept s -> step s s' -> kept s'.
Proof.
  intros Hinv Hstep.
  assert (Hcases : Server.phase s = Server.Intake ∨ Server.phase s <> Server.Intake)
    by (destruct (Server.phase s); (left; reflexivity) || (right; discriminate)).
  destruct Hcases as [Hph | Hph].
  - destruct Hstep; state_fields in Hph; try discriminate Hph.
    + destruct Hinv as (K1 & K2 & K3 & K4 & _). unfold uploadsInv.
      cbv zeta. state_fields. state_fields in K1. state_fields in K2.
      state_fields in K3. state_fields in K4.
      assert (En : map Server.name
                     (Server.files (Server.setStatus Server.Processing
                                      (Server.acceptFiles originalnames b)))
                   = originalnames).
      { cbn. rewrite map_map. cbn. apply map_id. }
      rewrite En. do 4 (split; [assumption |]).
      split; [cbn; apply length_map |]. split; [cbn; rewrite length_map; assumption |].
      split; assumption.
    + exact Hinv.
  - destruct (step_sameCore s s' Hstep Hph) as [(C1 & C2 & C3 & C4 & C5 & C6) _].
    destruct Hinv as (K1 & K2 & K3 & K4 & K5 & K6 & K7 & K8).
    unfold uploadsInv. cbv zeta in *. rewrite C1, C2, C3, C4, C5, C6.
    repeat split; assumption.
Qed.

Lemma uploadsInv_run (s0 s : Server.State) : kept s0 -> rtc step s0 s -> kept s.
Proof. intros H0 Hrun. induction Hrun; [exact H0 | eauto using uploadsInv_step]. Qed.

(** X11: a batch keeps the id, the mode and the two texts it was created
    with.  Its total is the number of its records and never exceeds 500,
    the limit of the upload; every record bears the name of an upload that
    the filter accepted, a plain file name.  Once the upload is accepted,
    no step changes the total, adds, drops, renames or reorders a
    record. *)
Theorem batch_core_is_stable (s : Server.State) :
  rtc step init s ->
  let b := Server.batch s in
  (Server.id b = id ∧ Server.mode b = mode
   ∧ Server.dateText b = dateText ∧ Server.eventText b = eventText)
  ∧ Server.total b = length (Server.files b)
  ∧ (Server.total b <= 500)%nat
  ∧ Forall (fun r => Server.fileFilter (Server.name r) = true
                     ∧ plainName (Server.name r) = true) (Server.files b)
  ∧ ∀ s', rtc step s s' ->
          Server.phase s <> Server.Intake ->
          map Server.name (Server.files (Server.batch s')) = map Server.name (Server.files b)
          ∧ Server.total (Server.batch s') = Server.total b.
Proof.
  intros Hrun b.
  assert (Hinv : kept s).
  { eapply uploadsInv_run; [| exact Hrun]. repeat split. cbn. lia. }
  destruct Hinv as (H1 & H2 & H3 & H4 & H5 & H6 & H7 & H8). fold b in H1, H2, H3, H4, H5, H6, H7, H8.
  split; [auto |]. split; [rewrite H5; apply length_map |]. split; [exact H6 |]. split.
  - apply Forall_forall. intros r Hr.
    assert (Hn : Server.name r ∈ map Server.name (Server.files b))
      by (apply list_elem_of_fmap; exists r; auto).
    split; eapply forallb_elem_of; eassumption.
  - intros s' Hrun' Hph. destruct (run_sameCore s s' Hrun' Hph) as (_ & _ & _ & _ & C5 & C6).
    split; assumption.
Qed.

End Core.

(** ** The files of a batch *)

Lemma elem_of_insert_inv {A} (l : list A) (i : nat) (x y : A) :
  y ∈ <[i := x]> l -> y = x ∨ y ∈ l.
Proof.
  revert i. induction l as [| a l IH]; intros i H; [inversion H |].
  destruct i as [| i]; cbn in H.
  - apply elem_of_cons in H as [-> | H]; [left; reflexivity | right; right; exact H].
  - apply elem_of_cons in H as [-> | H]; [right; left |].
    destruct (IH i H) as [-> | H']; [left; reflexivity | right; right; exact H'].
Qed.

Lemma record_id filename o b : Server.id (Server.record filename o b) = Server.id b.
Proof. destruct o; reflexivity. Qed.

Lemma record_names filename o b :
  map Server.name (Server.files (Server.record filename o b))
  = map Server.name (Server.files b).
Proof. destruct o; cbn; apply markFile_names; reflexivity. Qed.

Lemma writtenPath_id ROOT_UPLOADS ROOT_STORAGE __dirname (b b' : Server.Batch) (f : string) :
  Server.id b' = Server.id b ->
  writtenPath ROOT_UPLOADS ROOT_STORAGE __dirname b' f
  = writtenPath ROOT_UPLOADS ROOT_STORAGE __dirname b f.
Proof.
  intros E. unfold writtenPath, Server.payloadOf, Server.outDir. cbn [Worker.outputPath].
  rewrite E. reflexivity.
Qed.

Lemma outEmpty_mono ROOT_STORAGE (s s' : Server.State) :
  Server.id (Server.batch s') = Server.id (Server.batch s) ->
  (∀ p, p ∈ Server.fs s -> p ∈ Server.fs s') ->
  ¬ outEmpty ROOT_STORAGE s -> ¬ outEmpty ROOT_STORAGE s'.
Proof.
  intros Eid Hsub Hne Hempty. apply Hne. intros n Hn. apply (Hempty n).
  unfold Server.outDir in *. rewrite Eid. apply Hsub, Hn.
Qed.

Section Store.

Variables ROOT_UPLOADS ROOT_STORAGE __dirname : string.
Variable cpus : nat.
Variables id mode dateText eventText : string.
Variable fs0 : gset string.

Hypothesis fresh :
  ∀ n, pathJoin (Server.uploadsDir ROOT_UPLOADS (created id mode dateText eventText)) n ∉ fs0.

#[local] Abbreviation step := (Server.step ROOT_UPLOADS ROOT_STORAGE __dirname cpus).
#[local] Abbreviation accountedFor :=
  (accountedFor ROOT_UPLOADS ROOT_STORAGE __dirname id fs0).
#[local] Abbreviation storeInv := (storeInv ROOT_UPLOADS ROOT_STORAGE __dirname id fs0).

(** A file that is accounted for stays so while the batch keeps its id and
    the names of its records and no claim is forgotten. *)
Lemma accountedFor_mono (s s' : Server.State) (p : string) :
  Server.id (Server.batch s') = Server.id (Server.batch s) ->
  map Server.name (Server.files (Server.batch s'))
  = map Server.name (Server.files (Server.batch s)) ->
  (∀ c, c ∈ Server.spawned s -> c ∈ Server.spawned s') ->
  Server.phase s <> Server.Returned ->
  accountedFor s p -> accountedFor s' p.
Proof.
  intros Eid En Hsp Hph [H | [(n & Hn & E) | [(c & Hc & E) | [H _]]]].
  - left. exact H.
  - right. left. exists n. rewrite En. auto.
  - right. right. left. exists c. split; [apply Hsp, Hc |].
    rewrite E. symmetry. apply writtenPath_id, Eid.
  - contradiction.
Qed.

Lemma storeInv_step (s s' : Server.State) : storeInv s -> step s s' -> storeInv s'.
Proof.
  intros (Hid & Hold & Hacc & Hsp & Hph) Hstep.
  destruct Hstep; unfold storeInv; state_fields; state_fields in Hid;
    state_fields in Hold; state_fields in Hacc; state_fields in Hsp; state_fields in Hph.
  - (* intake *)
    destruct Hph as [Hfiles ->].
    split; [exact Hid |]. split; [intros p Hp; apply elem_of_union_r, Hold, Hp |].
    split; [| split; [intros c Hc; inversion Hc | reflexivity]].
    intros p [Hp | Hp]%elem_of_union.
    + right. left. apply elem_of_list_to_set, list_elem_of_fmap in Hp as (n & -> & Hn).
      exists n. split.
      * cbn. rewrite map_map. cbn. rewrite map_id. exact Hn.
      * unfold Server.uploadsDir. rewrite Hid. reflexivity.
    + destruct (Hacc p Hp) as [H' | [(n & Hn & _) | [(c & Hc & _) | [H' _]]]].
      * left. exact H'.
      * state_fields in Hn. rewrite Hfiles in Hn. inversion Hn.
      * inversion Hc.
      * discriminate H'.
  - (* refused *)
    split; [exact Hid |]. split; [exact Hold |].
    split; [| split; [exact Hsp | apply Hph]].
    intros p Hp. eapply accountedFor_mono; [| | | | exact (Hacc p Hp)];
      first [reflexivity | discriminate | auto].
  - (* mkdir *)
    split; [exact Hid |]. split; [exact Hold |]. split; [| split; [exact Hsp | exact Hph]].
    intros p Hp. eapply accountedFor_mono; [| | | | exact (Hacc p Hp)];
      first [reflexivity | discriminate | auto].
  - split; [exact Hid |]. split; [exact Hold |]. split; [| split; [exact Hsp | exact Hph]].
    intros p Hp. eapply accountedFor_mono; [| | | | exact (Hacc p Hp)];
      first [reflexivity | discriminate | auto].
  - (* readdir *)
    split; [exact Hid |]. split; [exact Hold |]. split; [| split; [exact Hsp |]].
    + intros p Hp. eapply accountedFor_mono; [| | | | exact (Hacc p Hp)];
        first [reflexivity | discriminate | auto].
    + split.
      * intros f Hf.
        match goal with H : Server.isListing _ _ _ |- _ => destruct H as [_ Hl] end.
        apply Hl in Hf. unfold Server.uploadsDir in Hf. rewrite Hid in Hf.
        destruct (Hacc _ Hf) as [H' | [(n & Hn & E) | [(c & Hc & _) | [H' _]]]].
        -- exfalso. exact (fresh f H').
        -- apply pathJoin_inj in E. subst n. exact Hn.
        -- state_fields in Hc. rewrite Hph in Hc. inversion Hc.
        -- discriminate H'.
      * intros f Hf. apply elem_of_replicate in Hf as [Hf _]. discriminate Hf.
  - split; [exact Hid |]. split; [exact Hold |]. split; [| split; [exact Hsp | exact Hph]].
    intros p Hp. eapply accountedFor_mono; [| | | | exact (Hacc p Hp)];
      first [reflexivity | discriminate | auto].
  - (* claim *)
    destruct Hph as [Hfiles Hbusy].
    split; [exact Hid |]. split; [exact Hold |]. split; [| split].
    + intros p Hp. eapply accountedFor_mono; [| | | | exact (Hacc p Hp)];
        first [reflexivity | discriminate | idtac].
      state_fields. intros c Hc. apply elem_of_app. left. exact Hc.
    + intros c [Hc | Hc]%elem_of_app; [apply Hsp, Hc |].
      apply list_elem_of_singleton in Hc. subst c. state_fields.
      apply Hfiles. eapply list_elem_of_lookup_2. eassumption.
    + split; [exact Hfiles |].
      intros f Hf. rewrite map_app. apply elem_of_app.
      apply elem_of_insert_inv in Hf as [[= ->] | Hf]; [right; left | left; apply Hbusy, Hf].
  - (* exhausted *)
    destruct Hph as [Hfiles Hbusy].
    split; [exact Hid |]. split; [exact Hold |]. split; [| split; [exact Hsp |]].
    + intros p Hp. eapply accountedFor_mono; [| | | | exact (Hacc p Hp)];
        first [reflexivity | discriminate | auto].
    + split; [exact Hfiles |].
      intros f Hf. apply elem_of_insert_inv in Hf as [Hf | Hf]; [discriminate Hf |].
      apply Hbusy, Hf.
  - (* a worker settles *)
    destruct Hph as [Hfiles Hbusy].
    split; [rewrite record_id; exact Hid |].
    split; [intros p Hp; apply elem_of_union_r, Hold, Hp |]. split; [| split].
    + intros p [Hp | Hp]%elem_of_union.
      * right. right. left.
        assert (Hf : filename ∈ map Server.filename sp)
          by (apply Hbusy; eapply list_elem_of_lookup_2; eassumption).
        apply list_elem_of_fmap in Hf as (c & -> & Hc). exists c. split; [exact Hc |].
        state_fields. rewrite (writtenPath_id _ _ _ b) by apply record_id.
        unfold Server.written in Hp. unfold writtenPath.
        destruct o as [| err [|]]; set_solver.
      * eapply accountedFor_mono; [| | | | exact (Hacc p Hp)]; state_fields;
          first [apply record_id | apply record_names | discriminate | auto].
    + intros c Hc. rewrite record_names. apply Hsp, Hc.
    + split; [intros f Hf; rewrite record_names; apply Hfiles, Hf |].
      intros f Hf. apply elem_of_insert_inv in Hf as [Hf | Hf]; [discriminate Hf |].
      apply Hbusy, Hf.
  - (* join *)
    split; [exact Hid |]. split; [exact Hold |]. split; [| split; [exact Hsp | exact I]].
    intros p Hp. eapply accountedFor_mono; [| | | | exact (Hacc p Hp)];
      first [reflexivity | discriminate | auto].
  - (* no output *)
    split; [exact Hid |]. split; [exact Hold |]. split; [| split; [exact Hsp | exact I]].
    intros p Hp. eapply accountedFor_mono; [| | | | exact (Hacc p Hp)];
      first [reflexivity | discriminate | auto].
  - split; [exact Hid |]. split; [exact Hold |]. split; [| split; [exact Hsp | exact I]].
    intros p Hp. eapply accountedFor_mono; [| | | | exact (Hacc p Hp)];
      first [reflexivity | discriminate | auto].
  - (* zipping *)
    split; [exact Hid |]. split; [exact Hold |]. split; [| split; [exact Hsp |]].
    + intros p Hp. eapply accountedFor_mono; [| | | | exact (Hacc p Hp)];
        first [reflexivity | discriminate | auto].
    + intros Hempty. match goal with H : _ <> [] |- _ => apply H end.
      eapply listing_of_empty; [| eassumption]. exact Hempty.
  - (* zipped *)
    split; [exact Hid |].
    split; [intros p Hp; apply elem_of_union_r, Hold, Hp |]. split; [| split; [exact Hsp |]].
    + intros p [Hp | Hp]%elem_of_union.
      * right. right. right. split; [reflexivity |].
        apply elem_of_singleton in Hp. rewrite Hp. unfold Server.zipPath. rewrite Hid.
        reflexivity.
      * destruct (Hacc p Hp) as [H' | [H' | [H' | [H' _]]]];
          [left; exact H' | right; left; exact H' | right; right; left; exact H'
          | discriminate H'].
    + split.
      * eapply outEmpty_mono; [| | exact Hph]; state_fields; [reflexivity |].
        intros p Hp. apply elem_of_union_r, Hp.
      * apply elem_of_union_l, elem_of_singleton. reflexivity.
  - (* the archiver throws *)
    split; [exact Hid |]. split; [exact Hold |]. split; [| split; [exact Hsp | exact I]].
    intros p Hp. eapply accountedFor_mono; [| | | | exact (Hacc p Hp)];
      first [reflexivity | discriminate | auto].
Qed.

Lemma storeInv_run (s0 s : Server.State) : storeInv s0 -> rtc step s0 s -> storeInv s.
Proof. intros H0 Hrun. induction Hrun; [exact H0 | eauto using storeInv_step]. Qed.

Lemma storeInv_reachable (s : Server.State) :
  rtc step (Server.mkState (created id mode dateText eventText) Server.Intake fs0 []) s ->
  storeInv s.
Proof.
  apply storeInv_run. split; [reflexivity |]. split; [auto |].
  split; [intros p Hp; left; exact Hp |].
  split; [intros c Hc; inversion Hc | split; reflexivity].
Qed.

#[local] Abbreviation b0 := (created id mode dateText eventText).
#[local] Abbreviation init := (Server.mkState b0 Server.Intake fs0 []).

(** The status is Done only at the end of [processBatchInBackground]. *)
Lemma done_returned (s : Server.State) :
  rtc step init s ->
  Server.status (Server.batch s) = Server.Done -> Server.phase s = Server.Returned.
Proof.
  intros Hrun Hdone.
  pose proof (phase_status ROOT_UPLOADS ROOT_STORAGE __dirname cpus id mode dateText eventText
                fs0 s (lifeInv_reachable _ _ _ _ _ _ _ _ _ fresh s Hrun)) as Hst.
  destruct (Server.phase s); congruence.
Qed.


Lemma basename_pathJoin (dir n : string) :
  plainName n = true -> basename (pathJoin dir n) EmptyString = n.
Proof.
  intros Hn. unfold basename. rewrite (lastComponent_pathJoin dir n Hn).
  destruct (stripSuffix EmptyString n); [rewrite andb_false_r |]; reflexivity.
Qed.

(** X13: while the map of batches holds the batch under its id, the
    download route answers 409 as long as the status is not Done, and once
    it is Done it sends the archive <storage>/<id>.zip under the name
    <id>.zip: the archive exists then, so that the answer "ZIP niet
    gevonden" is never given, and the output directory it was made from is
    not empty.  An id that the map does not hold is answered with 404. *)
Theorem download_serves_archive_iff_done (batches : gmap string Server.Batch)
        (s : Server.State) :
  plainName id = true ->
  rtc step init s ->
  batches !! id = Some (Server.batch s) ->
  Server.getDownload ROOT_STORAGE batches (Server.fs s) id
  = (if Server.isDone (Server.status (Server.batch s))
     then Server.SendFile (pathJoin ROOT_STORAGE (id +:+ ".zip")) (id +:+ ".zip")
     else Server.ErrorJson 409 "Batch niet gereed voor download.")
  ∧ (Server.status (Server.batch s) = Server.Done -> ¬ outEmpty ROOT_STORAGE s)
  ∧ ∀ other, batches !! other = None ->
      Server.getDownload ROOT_STORAGE batches (Server.fs s) other
      = Server.ErrorJson 404 "Onbekende batch.".
Proof.
  intros Hplain Hrun Hreg.
  destruct (storeInv_reachable s Hrun) as (Hid & _ & _ & _ & Hph).
  assert (Hdone : Server.status (Server.batch s) = Server.Done ->
                  ¬ outEmpty ROOT_STORAGE s
                  ∧ Server.zipPath ROOT_STORAGE (Server.batch s) ∈ Server.fs s).
  { intros Hd. rewrite (done_returned s Hrun Hd) in Hph. exact Hph. }
  split; [| split].
  - unfold Server.getDownload. rewrite Hreg.
    destruct (Server.status (Server.batch s)) eqn:Est; try reflexivity.
    cbn [Server.isDone negb]. destruct (Hdone eq_refl) as [_ Hzip].
    rewrite (bool_decide_eq_true_2 _ Hzip). cbn [negb].
    unfold Server.zipPath. rewrite Hid.
    rewrite basename_pathJoin; [reflexivity |].
    rewrite plainName_app, Hplain. reflexivity.
  - intros Hd. apply (Hdone Hd).
  - intros other Hother. unfold Server.getDownload. rewrite Hother. reflexivity.
Qed.

Lemma busyCount_le (slots : list Server.Slot) : (busyCount slots <= length slots)%nat.
Proof.
  unfold busyCount. induction slots as [| sl slots IH]; [reflexivity |].
  csimpl. destruct sl; cbn [busy]; lia.
Qed.

(** X14: the workers that were started and have not settled are never more
    than the [workerCount] chains of the pool, which are at most four; in
    the pool they are the chains that await their worker; and whenever the
    status is not "processing" (before the pool, while archiving, and after
    the end or an error) no worker is running. *)
Theorem workers_in_flight_at_most_four (s : Server.State) :
  rtc step init s ->
  let b := Server.batch s in
  let settled := (Server.processed b + Server.failed b)%nat in
  (settled <= length (Server.spawned s) <= settled + Server.workerCount cpus)%nat
  ∧ (Server.workerCount cpus <= 4)%nat
  ∧ (∀ files idx slots,
       Server.phase s = Server.Pool files idx slots ->
       length slots = Server.workerCount cpus
       ∧ length (Server.spawned s) = (settled + busyCount slots)%nat)
  ∧ (Server.status b <> Server.Processing -> length (Server.spawned s) = settled).
Proof.
  intros Hrun b settled.
  pose proof (lifeInv_reachable _ _ _ _ _ _ _ _ _ fresh s Hrun) as Hlife.
  destruct (storeInv_reachable s Hrun) as (_ & _ & _ & _ & Hstore).
  pose proof (workerCount_pos cpus) as HN.
  assert (Hlen : ∀ k, map Server.index (Server.spawned s) = seq 0 k ->
                      length (Server.spawned s) = k).
  { intros k E. apply (f_equal length) in E. rewrite length_map, length_seq in E. exact E. }
  unfold lifeInv, poolInv, finished in Hlife. subst settled b.
  pose proof (phase_status _ _ _ _ _ _ _ _ _ s
                (lifeInv_reachable _ _ _ _ _ _ _ _ _ fresh s Hrun)) as Hstatus.
  set (N := Server.workerCount cpus) in *. clearbody N.
  destruct (Server.phase s) as [| | | | files idx slots | | | | | []] eqn:Eph;
    try (destruct Hlife as (Hb & _ & Hsp); rewrite Hb, Hsp; cbn;
         repeat split; first [lia | discriminate | reflexivity]);
    try (destruct Hlife as (names & _ & Hb & _ & Hsp); rewrite Hb, Hsp; cbn;
         repeat split; first [lia | discriminate | reflexivity]);
    try (destruct Hlife as (names & err & Hb); rewrite Hb, Hstore; cbn;
         repeat split; first [lia | discriminate | reflexivity]);
    destruct Hlife as (names & files' & _ & _ & _ & _ & _ & Hph);
    change (Server.processed (accepted id mode dateText eventText names)) with 0%nat in Hph;
    change (Server.failed (accepted id mode dateText eventText names)) with 0%nat in Hph.
  - (* Pool *)
    destruct Hph as (-> & Hslots & _ & Hcnt & _ & Hidx). apply Hlen in Hidx.
    pose proof (busyCount_le slots) as Hbusy.
    split; [lia |]. split; [lia |]. split.
    + intros ? ? ? [= <- <- <-]. split; [exact Hslots | lia].
    + intros Hst. contradiction.
  - destruct Hph as (_ & Hcnt & Hidx). apply Hlen in Hidx.
    split; [lia |]. split; [lia |]. split; [discriminate | lia].
  - destruct Hph as (_ & Hcnt & Hidx). apply Hlen in Hidx.
    split; [lia |]. split; [lia |]. split; [discriminate | lia].
  - destruct Hph as (_ & Hcnt & Hidx). apply Hlen in Hidx.
    split; [lia |]. split; [lia |]. split; [discriminate | lia].
  - destruct Hph as (_ & Hcnt & Hidx). apply Hlen in Hidx.
    split; [lia |]. split; [lia |]. split; [discriminate | lia].
  - destruct Hph as (_ & Hcnt & Hidx). apply Hlen in Hidx.
    split; [lia |]. split; [lia |]. split; [discriminate | lia].
Qed.

End Store.

(** ** The pool comes to an end *)

Section PoolBound.

Variables ROOT_UPLOADS ROOT_STORAGE __dirname : string.
Variable cpus : nat.

#[local] Abbreviation step := (Server.step ROOT_UPLOADS ROOT_STORAGE __dirname cpus).

Lemma afterPool_step (s s' : Server.State) :
  afterPool (Server.phase s) -> step s s' -> afterPool (Server.phase s').
Proof. intros H Hstep. destruct Hstep; cbn in *; first [exact I | contradiction]. Qed.

Lemma afterPool_run (s s' : Server.State) :
  afterPool (Server.phase s) -> rtc step s s' -> afterPool (Server.phase s').
Proof. intros H Hrun. induction Hrun; [exact H | eauto using afterPool_step]. Qed.

(** Every step inside the pool uses up work. *)
Lemma pool_nsteps_work (n : nat) (s0 s : Server.State) :
  nsteps step n s0 s ->
  ∀ b files idx slots fs sp files' idx' slots',
    s0 = Server.mkState b (Server.Pool files idx slots) fs sp ->
    Server.phase s = Server.Pool files' idx' slots' ->
    files' = files ∧ (n + poolWork files idx' slots' <= poolWork files idx slots)%nat.
Proof.
  induction 1 as [x | n x y z Hxy Hyz IH]; intros b files idx slots fs sp files' idx' slots' E Eph.
  - subst x. cbn in Eph. injection Eph as <- <- <-. split; [reflexivity | lia].
  - subst x. destruct y as [b1 ph1 fs1 sp1].
    destruct ph1 as [| | | | files1 idx1 slots1 | | | | |];
      try (exfalso;
           assert (Hafter : afterPool (Server.phase z))
             by (eapply afterPool_run; [| eapply rtc_nsteps_2; exact Hyz]; exact I);
           rewrite Eph in Hafter; exact Hafter);
      try (inversion Hxy; fail).
    destruct (pool_step_decreases _ _ _ _ _ _ _ _ _ _ _ _ _ _ _ _ Hxy) as [-> Hlt].
    destruct (IH b1 files idx1 slots1 fs1 sp1 files' idx' slots' eq_refl Eph) as [-> Hle].
    split; [reflexivity | lia].
Qed.

(** X15: a pool of N chains on a listing of k files is joined after at most
    N + 2k steps, whatever the order in which the chains run and the workers
    settle: as long as the pool has not been joined, the steps taken and the
    work that is left add up to no more than that. *)
Theorem pool_joins_within_bound (N n : nat) (files : list string) (b : Server.Batch)
        (fs : gset string) (s : Server.State) :
  nsteps step n (Server.mkState b (Server.Pool files 0 (replicate N Server.Ready)) fs []) s ->
  ∀ files' idx slots,
    Server.phase s = Server.Pool files' idx slots ->
    (n + poolWork files idx slots <= N + 2 * length files)%nat.
Proof.
  intros Hrun files' idx slots Eph.
  destruct (pool_nsteps_work n _ _ Hrun _ _ _ _ _ _ _ _ _ eq_refl Eph) as [_ Hle].
  unfold poolWork in Hle at 2. rewrite fmap_replicate, sum_list_replicate in Hle.
  cbn [slotWeight] in Hle. lia.
Qed.

End PoolBound.

(** ** Records and counters *)









Section Records.

Variables ROOT_UPLOADS ROOT_STORAGE __dirname : string.
Variable cpus : nat.
Variables id mode dateText eventText : string.
Variable fs0 : gset string.

Hypothesis fresh :
  ∀ n, pathJoin (Server.uploadsDir ROOT_UPLOADS (created id mode dateText eventText)) n ∉ fs0.

#[local] Abbreviation step := (Server.step ROOT_UPLOADS ROOT_STORAGE __dirname cpus).
#[local] Abbreviation life :=
  (lifeInv ROOT_UPLOADS ROOT_STORAGE __dirname cpus id mode dateText eventText fs0).
#[local] Abbreviation init :=
  (Server.mkState (created id mode dateText eventText) Server.Intake fs0 []).





End Records.

(** ** Concrete instances of the further properties *)

(** The overlay "Team Offsite 2024-05-01" of a 4000 x 3000 photo: no logo,
    one line of text. *)
Lemma overlay_layers_aligned_and_stacked_witness :
  let L := Worker.overlayLayout Demo.renderMeta Demo.existsSync Demo.logoMetadata
             Demo.logoResized 4000 3000 "2024-05-01" "Team Offsite" "public/logo.png"
             (ofZ 1) (lit 9 10) in
  Worker.textLines L <> []
  ∧ stacked (Worker.logo L) 25 29 (Worker.overlayHeight L - 29) (Worker.composites L).
Proof.
  destruct (overlay_layers_aligned_and_stacked Demo.renderMeta Demo.existsSync
              Demo.logoMetadata Demo.logoResized Demo.compositeCanvas
              4000 3000 "2024-05-01" "Team Offsite" "public/logo.png"
              (ofZ 1) (lit 9 10) (lit 75 100)) as (_ & _ & Hne & _ & Hst).
  split; [exact Hne | exact Hst].
Defined.


Lemma wrap_totals_witness :
  let r := Worker.wrapTextToWidth Demo.renderMeta "Team Offsite 2024-05-01" 18 108 in
  Worker.lines r <> [] ∧ (length (Worker.lines r) <= 3)%nat.
Proof.
  destruct (wrap_totals Demo.renderMeta 18 108 "Team Offsite 2024-05-01") as (H1 & H2 & _).
  split; [exact H1 | exact H2].
Defined.

Lemma overlay_within_text_block_width_witness :
  Worker.overlayWidth
    (Worker.overlayLayout Demo.renderMeta Demo.existsSync Demo.logoMetadata
       Demo.logoResized 4000 3000 "2024-05-01" "Team Offsite" "public/logo.png"
       (ofZ 1) (lit 9 10))
  <= 3516.
Proof.
  refine (proj2 (overlay_within_text_block_width Demo.renderMeta Demo.existsSync
                   Demo.logoMetadata Demo.logoResized 4000 3000 "2024-05-01"
                   "Team Offsite" "public/logo.png" (ofZ 1) (lit 9 10) _ _ _)).
  - vm_compute. discriminate.
  - vm_compute. repeat constructor; discriminate.
  - vm_compute. exact I.
Defined.

(** IMG_1.DNG of batch b1 is written as IMG_1.jpg, JPEG-encoded. *)
Lemma accepted_upload_written_and_encoded_witness :
  let run := Demo.main 4000 3000 (Demo.payloadOf DemoBatch.b0 "IMG_1.DNG") in
  Worker.outPathFinal run = "/app/storage/b1/out/IMG_1.jpg"
  ∧ Worker.encoder run = Worker.Jpeg 90 "4:4:4".
Proof.
  destruct (accepted_upload_written_and_encoded Demo.renderMeta Demo.existsSync
              Demo.logoMetadata Demo.logoResized Demo.compositeCanvas
              (Demo.imageMetadata 4000 3000) Demo.ROOT_UPLOADS Demo.ROOT_STORAGE
              Demo.__dirname DemoBatch.b0 "IMG_1.DNG" eq_refl eq_refl) as (_ & H2 & _ & H4).
  split; [exact H2 | exact H4].
Defined.


(** A JPEG is handed back; IMG_1.dng is converted by darktable-cli; and
    when no tool works, the conversion of x.cr2 fails. *)
Lemma ensureRasterInput_result_witness :
  Server.ensureRasterInput Demo.tmpdir Demo.runExec "/app/uploads/b1/a.jpg" ∅
  = (Server.RasterPath "/app/uploads/b1/a.jpg", ∅)
  ∧ (∃ fs', Server.ensureRasterInput Demo.tmpdir Demo.runExec "/app/uploads/b1/IMG_1.dng" ∅
            = (Server.RasterPath "/tmp/raw2tiff/IMG_1.tif", fs')
            ∧ "/tmp/raw2tiff/IMG_1.tif" ∈ fs')
  ∧ fst (Server.ensureRasterInput "/tmp" (fun _ _ fs => (false, fs)) "x.cr2" ∅)
    = Server.ConversionFailed "x.cr2".
Proof.
  split; [| split].
  - exact (proj1 (ensureRasterInput_result Demo.tmpdir Demo.runExec
                    "/app/uploads/b1/a.jpg" ∅) eq_refl).
  - destruct (Server.ensureRasterInput Demo.tmpdir Demo.runExec
                "/app/uploads/b1/IMG_1.dng" ∅) as [r fs'] eqn:E.
    pose proof (proj1 (proj2 (ensureRasterInput_result Demo.tmpdir Demo.runExec
                                "/app/uploads/b1/IMG_1.dng" ∅)) eq_refl r fs' E) as H.
    assert (Er : fst (Server.ensureRasterInput Demo.tmpdir Demo.runExec
                        "/app/uploads/b1/IMG_1.dng" ∅)
                 = Server.RasterPath "/tmp/raw2tiff/IMG_1.tif") by (vm_compute; reflexivity).
    rewrite E in Er. cbn [fst] in Er. subst r. destruct H as [_ H].
    exists fs'. split; [reflexivity | exact H].
  - exact (proj2 (proj2 (ensureRasterInput_result "/tmp" (fun _ _ fs => (false, fs))
                           "x.cr2" ∅)) eq_refl (fun _ _ _ => eq_refl)).
Defined.


(** The finished batch b1 is served as b1.zip. *)
Lemma download_serves_archive_iff_done_witness :
  Server.getDownload Demo.ROOT_STORAGE {["b1" := Server.batch DemoBatch.zipped]}
                     (Server.fs DemoBatch.zipped) "b1"
  = Server.SendFile "/app/storage/b1.zip" "b1.zip".
Proof.
  exact (proj1 (download_serves_archive_iff_done Demo.ROOT_UPLOADS Demo.ROOT_STORAGE
                  Demo.__dirname 2 "b1" "edit-only" "" "" ∅ demo_fresh
                  {["b1" := Server.batch DemoBatch.zipped]} DemoBatch.zipped
                  eq_refl demo_run_zipped (lookup_singleton_eq _ _))).
Defined.

(** When b1 is Done, its one worker has settled. *)
Lemma workers_in_flight_at_most_four_witness :
  length (Server.spawned DemoBatch.zipped)
  = (Server.processed (Server.batch DemoBatch.zipped)
     + Server.failed (Server.batch DemoBatch.zipped))%nat.
Proof.
  apply (workers_in_flight_at_most_four Demo.ROOT_UPLOADS Demo.ROOT_STORAGE Demo.__dirname
           2 "b1" "edit-only" "" "" ∅ demo_fresh DemoBatch.zipped demo_run_zipped).
  discriminate.
Defined.

(** One chain, one file: after the claim, one step is taken and two units
    of work are left, of three. *)
Lemma pool_joins_within_bound_witness :
  (1 + poolWork ["a.jpg"] 1 [Server.Busy "a.jpg"] <= 1 + 2 * 1)%nat.
Proof.
  refine (pool_joins_within_bound Demo.ROOT_UPLOADS Demo.ROOT_STORAGE Demo.__dirname 2
            1 1 ["a.jpg"] DemoBatch.b1 ∅
            (Server.mkState DemoBatch.b1
               (Server.Pool ["a.jpg"] 1 (<[0%nat := Server.Busy "a.jpg"]> [Server.Ready])) ∅
               ([] ++ [Server.mkSpawn 0 0 "a.jpg" (Demo.payloadOf DemoBatch.b1 "a.jpg")]))
            _ ["a.jpg"] 1%nat [Server.Busy "a.jpg"] eq_refl).
  apply nsteps_once.
  apply (Server.step_claim _ _ _ _ DemoBatch.b1 ∅ [] ["a.jpg"] 0 [Server.Ready] 0 "a.jpg");
    reflexivity.
Defined.


(** The finished batch b1 still has its one record a.jpg. *)
Lemma batch_core_is_stable_witness :
  Server.total (Server.batch DemoBatch.zipped)
  = length (Server.files (Server.batch DemoBatch.zipped))
  ∧ map Server.name (Server.files (Server.batch DemoBatch.zipped)) = ["a.jpg"].
Proof.
  destruct (batch_core_is_stable Demo.ROOT_UPLOADS Demo.ROOT_STORAGE Demo.__dirname
              2 "b1" "edit-only" "" "" ∅
              (Server.mkState DemoBatch.b1 Server.Mkdir DemoBatch.fs1 []) demo_run_mkdir)
    as (_ & _ & _ & _ & Hkeep).
  destruct (batch_core_is_stable Demo.ROOT_UPLOADS Demo.ROOT_STORAGE Demo.__dirname
              2 "b1" "edit-only" "" "" ∅ DemoBatch.zipped demo_run_zipped)
    as (_ & Htotal & _).
  split; [exact Htotal |].
  destruct (Hkeep DemoBatch.zipped) as [Hnames _]; [| discriminate | exact Hnames].
  eapply rtc_l; [apply Server.step_mkdir |].
  eapply rtc_l; [apply Server.step_readdir; exact demo_uploads_listing |].
  eapply rtc_l; [apply Server.step_claim with (i := 0%nat) (filename := "a.jpg"); reflexivity |].
  eapply rtc_l;
    [apply Server.step_settle with (i := 0%nat) (o := Server.Fulfilled); reflexivity |].
  eapply rtc_l;
    [apply Server.step_exhausted with (i := 0%nat); [reflexivity | left; reflexivity] |].
  eapply rtc_l; [apply Server.step_join; repeat constructor |].
  eapply rtc_l; [eapply Server.step_zipping; [exact demo_out_listing | discriminate] |].
  eapply rtc_l; [apply Server.step_zip |].
  apply rtc_refl.
Defined.

(** IMG_1.DNG is accepted; .jpg, a name that begins with its only dot, is
    not. *)
Lemma fileFilter_accepts_witness :
  Server.fileFilter "IMG_1.DNG" = true ∧ Server.fileFilter ".jpg" <> true.
Proof.
  split.
  - apply (fileFilter_accepts "IMG_1.DNG" eq_refl).
    exists "IMG_1", "DNG". split; [reflexivity |]. split; [reflexivity |].
    split; [reflexivity |]. do 4 right. left.
  - intros H. apply (fileFilter_accepts ".jpg" eq_refl) in H as (pre & tail & E & Hpre & Hnd & _).
    destruct pre as [| c pre]; [discriminate Hpre |].
    rewrite append_cons in E. injection E as <- E.
    destruct pre as [| c pre]; [rewrite append_nil_l in E; discriminate E |].
    rewrite append_cons in E. injection E as <- E.
    destruct pre as [| c pre]; [rewrite append_nil_l in E; discriminate E |].
    rewrite append_cons in E. injection E as <- E.
    destruct pre as [| c pre]; [rewrite append_nil_l in E; discriminate E |].
    rewrite append_cons in E. injection E as <- E.
    destruct pre; discriminate E.
Defined.
